(** * A shallow embedding of ezdb (src/ezdb.go)

    ezdb is a typed key/value layer over LMDB (through the golmdb client).
    The engine, the file system and the gob codec are external collaborators:
    the engine is modelled as a store of named sub-databases following the
    LMDB rules the code relies on, the file system as an oracle record, and
    gob as a codec class.  The code of ezdb.go itself ([New], [Close],
    [initRef], [Put], [Get]) is translated line by line.  Go panics are an
    explicit outcome that carries the state at the point of the panic, since
    a caller may recover from them. *)

From Stdlib Require Import Strings.Byte.
From stdpp Require Import base gmap strings list.


Set Warnings "-register-all".

(* ------------------------------------------------------------------ *)
(** ** Bytes *)

Definition bytes := list byte.

#[global] Instance byte_eq_decision : EqDecision byte := Byte.byte_eq_dec.
#[global] Program Instance byte_countable : Countable byte :=
  inj_countable Byte.to_nat Byte.of_nat _.
Next Obligation. intros x. apply Byte.of_to_nat. Qed.

(* ------------------------------------------------------------------ *)
(** ** Go errors

    [errors.New] builds a flat message error; [errors.Join] wraps a list of
    errors.  The two package sentinels keep their identity so that
    [errors.Is] can find them. *)

Inductive lmdb_err :=
| MDB_NOTFOUND
| MDB_DBS_FULL
| MDB_BAD_VALSIZE.

Definition lmdb_err_msg (e : lmdb_err) : string :=
  match e with
  | MDB_NOTFOUND => "MDB_NOTFOUND: No matching key/data pair found"
  | MDB_DBS_FULL => "MDB_DBS_FULL: Environment maxdbs limit reached"
  | MDB_BAD_VALSIZE => "MDB_BAD_VALSIZE: Unsupported size of key/DB name/data, or wrong DUPFIXED size"
  end.

Inductive goerr :=
| ErrPutFailed                      (* errors.New("failed to put key") *)
| ErrGetFailed                      (* errors.New("failed to get key") *)
| ELmdb (e : lmdb_err)              (* an error returned by the engine *)
| ENew (msg : string)               (* errors.New(msg) *)
| EJoin (errs : list goerr).        (* errors.Join(errs...) *)

Fixpoint err_Error (e : goerr) : string :=
  match e with
  | ErrPutFailed => "failed to put key"
  | ErrGetFailed => "failed to get key"
  | ELmdb c => lmdb_err_msg c
  | ENew m => m
  | EJoin es =>
      (fix go (l : list goerr) : string :=
         match l with
         | [] => EmptyString
         | [x] => err_Error x
         | x :: r => (err_Error x ++ String (Ascii.ascii_of_nat 10) (go r))%string
         end) es
  end.

(** [errors.Is(e, target)] for a sentinel [target]: [e] itself or anything
    [e] wraps. *)
Fixpoint errors_Is (e target : goerr) : bool :=
  match e with
  | EJoin es => existsb (fun x => errors_Is x target) es
  | ErrPutFailed => match target with ErrPutFailed => true | _ => false end
  | ErrGetFailed => match target with ErrGetFailed => true | _ => false end
  | _ => false
  end.

(* ------------------------------------------------------------------ *)
(** ** The storage engine (LMDB through golmdb)

    An open environment holds the contents of its named sub-databases and
    the table of sub-database handles opened so far, bounded by [maxdbs].
    A write transaction works on a copy of the environment that is committed
    when the transaction function returns no error and dropped otherwise
    ([Update]); a read transaction sees the environment and changes nothing
    ([View]). *)

Record lmdb_env := mkEnv {
  env_maxdbs : nat;
  env_dbis : list string;
  env_data : gmap string (gmap bytes bytes)
}.

Definition MDB_MAXKEYSIZE : nat := 511.

(** [MAXDATASIZE] of mdb.c, 0xffffffff. *)
Definition MDB_MAXDATASIZE : N := 4294967295.

(** [mdb_dbi_open]: a name already opened is found first; otherwise a free
    slot is needed; then the name must exist or be created
    (flag [MDB_CREATE] = 0x40000). *)
Definition txn_DBRef (name : string) (create : bool) (e : lmdb_env)
  : lmdb_err + lmdb_env :=
  if decide (name ∈ env_dbis e) then inr e
  else if decide (env_maxdbs e ≤ List.length (env_dbis e)) then inl MDB_DBS_FULL
  else match env_data e !! name with
       | Some _ => inr (mkEnv (env_maxdbs e) (name :: env_dbis e) (env_data e))
       | None =>
           if create
           then inr (mkEnv (env_maxdbs e) (name :: env_dbis e)
                       (<[name := ∅]> (env_data e)))
           else inl MDB_NOTFOUND
       end.

(** [mdb_put] with no flags: a key of 1 to 511 bytes and a value of at
    most [MAXDATASIZE] bytes are accepted, and an existing entry is
    overwritten. *)
Definition txn_Put (dbi : string) (k v : bytes) (e : lmdb_env)
  : lmdb_err + lmdb_env :=
  if decide (List.length k = 0 ∨ MDB_MAXKEYSIZE < List.length k ∨
             (MDB_MAXDATASIZE < N.of_nat (List.length v))%N)
  then inl MDB_BAD_VALSIZE
  else inr (mkEnv (env_maxdbs e) (env_dbis e)
              (<[dbi := <[k := v]> (default ∅ (env_data e !! dbi))]> (env_data e))).

(** [mdb_get]. *)
Definition txn_Get (dbi : string) (k : bytes) (e : lmdb_env)
  : lmdb_err + bytes :=
  match env_data e !! dbi ≫= lookup k with
  | Some v => inr v
  | None => inl MDB_NOTFOUND
  end.

Definition Update (f : lmdb_env -> goerr + lmdb_env) (e : lmdb_env)
  : lmdb_env * option goerr :=
  match f e with
  | inr e' => (e', None)
  | inl err => (e, Some err)
  end.

Definition View {A} (f : lmdb_env -> goerr + A) (e : lmdb_env)
  : option goerr * option A :=
  match f e with
  | inr a => (None, Some a)
  | inl err => (Some err, None)
  end.

(* ------------------------------------------------------------------ *)
(** ** The gob codec

    [gob.Encoder.Encode] and [gob.Decoder.Decode] for one Go type, as a
    class: both may fail with a message.  The encoder writes the entries of
    a map in the order a [range] over the map visits them, which the Go
    runtime draws at random on every encoding; a [gob_seed] stands for
    those draws.  Values without maps encode the same for every seed.
    [GoZero] is the zero value of a Go type, what [new(V)] points to. *)

Definition gob_seed := nat.

Class Gob (T : Type) := {
  gob_Encode : gob_seed -> T -> string + bytes;
  gob_Decode : bytes -> string + T
}.

Class GoZero (T : Type) := go_zero : T.

(** [encode] and [decode] of ezdb.go, lines 224-244. *)
Definition encode {T} `{Gob T} (s : gob_seed) (val : T) : goerr + bytes :=
  match gob_Encode s val with
  | inl msg => inl (ENew ("failed to encode value: " ++ msg)%string)
  | inr buf => inr buf
  end.

Definition decode {T} `{Gob T} (r : bytes) : goerr + T :=
  match gob_Decode r with
  | inl msg => inl (ENew ("failed to decode value: " ++ msg)%string)
  | inr v => inr v
  end.

(* ------------------------------------------------------------------ *)
(** ** Options and [New] *)

(** A zerolog logger; [ZerologNop] is [zerolog.Nop()]. *)
Inductive logger :=
| ZerologNop
| ZerologLogger (writer : string).

(** [options]: every field is a pointer, [None] being nil. *)
Record options := mkOptions {
  numReaders : option nat;
  numDbs : option nat;
  batchSize : option nat;
  log : option logger
}.

(** The [Option] values the package exports. *)
Inductive Option :=
| WithNumReaders (n : nat)
| WithNumDBs (n : nat)
| WithBatchSize (n : nat)
| WithLogger (l : logger).

Definition apply_option (opt : Option) (o : options) : goerr + options :=
  match opt with
  | WithNumReaders n => inr (mkOptions (Some n) (numDbs o) (batchSize o) (log o))
  | WithNumDBs n => inr (mkOptions (numReaders o) (Some n) (batchSize o) (log o))
  | WithBatchSize n => inr (mkOptions (numReaders o) (numDbs o) (Some n) (log o))
  | WithLogger l => inr (mkOptions (numReaders o) (numDbs o) (batchSize o) (Some l))
  end.

Fixpoint apply_options (opts : list Option) (o : options) : goerr + options :=
  match opts with
  | [] => inr o
  | opt :: rest =>
      match apply_option opt o with
      | inl err => inl err
      | inr o' => apply_options rest o'
      end
  end.

(** [Client]: [db] is the golmdb client ([None] = nil), [initOnce] is the
    done flag of the [sync.Once].  [db_terminated] is state of the golmdb
    client [db] points to: whether [TerminateSync] has shut it down. *)
Record Client := mkClient {
  db : option lmdb_env;
  path : string;
  initOnce : bool;
  client_options : options;
  db_terminated : bool
}.

(** The engine state of [db] after a transaction on the same golmdb client. *)
Definition with_db (c : Client) (d : option lmdb_env) : Client :=
  mkClient d (path c) (initOnce c) (client_options c) (db_terminated c).

(** [db.db = newDB]: a new, running golmdb client. *)
Definition with_conn (c : Client) (env : lmdb_env) : Client :=
  mkClient (Some env) (path c) (initOnce c) (client_options c) false.

Definition with_once_done (c : Client) : Client :=
  mkClient (db c) (path c) true (client_options c) (db_terminated c).

Definition with_terminated (c : Client) : Client :=
  mkClient (db c) (path c) (initOnce c) (client_options c) true.

Definition New (path : string) (opts : list Option) : goerr + Client :=
  match apply_options opts (mkOptions None None None None) with
  | inl err => inl err
  | inr o =>
      let o1 := match numReaders o with
                | None => mkOptions (Some 8) (numDbs o) (batchSize o) (log o)
                | Some _ => o end in
      let o2 := match numDbs o1 with
                | None => mkOptions (numReaders o1) (Some 1) (batchSize o1) (log o1)
                | Some _ => o1 end in
      let o3 := match batchSize o2 with
                | None => mkOptions (numReaders o2) (numDbs o2) (Some 1) (log o2)
                | Some _ => o2 end in
      let o4 := match log o3 with
                | None => mkOptions (numReaders o3) (numDbs o3) (batchSize o3) (Some ZerologNop)
                | Some _ => o3 end in
      inr (mkClient None path false o4 false)
  end.

(* ------------------------------------------------------------------ *)
(** ** The heap, outcomes and the outside world *)

(** [*Client] values are locations of a heap; a location with no client
    stands for nil. *)
Definition loc := positive.
Abbreviation heap := (gmap loc Client).

Record DBRef := mkDBRef {
  id : string;
  ownerDB : option loc
}.

(** The zero value of [DBRef[K, V]]. *)
Definition zero_DBRef : DBRef := mkDBRef EmptyString None.

(** A call returns, or panics, or calls a method of a golmdb client that
    [TerminateSync] has shut down: the spec makes every operation after
    [Close] invalid, and what golmdb then does is not part of this
    repository, so the model stops there ([Undef], with the call made). *)
Inductive outcome (A : Type) :=
| Ret (h : heap) (a : A)
| Panic (h : heap) (msg : string)
| Undef (h : heap) (call : string).
Arguments Ret {A} h a.
Arguments Panic {A} h msg.
Arguments Undef {A} h call.

Definition nil_deref : string :=
  "runtime error: invalid memory address or nil pointer dereference".

(** Result of [os.Stat]: [StatNotExist] is an error for which
    [os.IsNotExist] holds. *)
Inductive stat_result :=
| StatOk
| StatNotExist
| StatOtherErr.

(** The file system and [lmdb.NewLMDB], as oracles.  [lmdb_NewLMDB] returns
    the sub-databases already stored at the path, or an error message. *)
Record OS := mkOS {
  os_Stat : string -> stat_result;
  os_MkdirAll : string -> option string;
  lmdb_NewLMDB : logger -> string -> nat -> nat -> nat ->
                 string + gmap string (gmap bytes bytes)
}.

Inductive io_event :=
| IoStat (p : string)
| IoMkdirAll (p : string)
| IoNewLMDB (p : string).

(* ------------------------------------------------------------------ *)
(** ** [initRef] (lines 114-155) *)

(** Opening the engine with the resolved options (line 125); every option
    pointer is dereferenced. *)
Definition open_db (os : OS) (c : Client) : Client * list io_event * option string :=
  let o := client_options c in
  match numReaders o, numDbs o, batchSize o, log o with
  | Some r, Some n, Some b, Some l =>
      match lmdb_NewLMDB os l (path c) r n b with
      | inl err => (c, [IoNewLMDB (path c)], Some ("failed to open db: " ++ err)%string)
      | inr data => (with_conn c (mkEnv n [] data), [IoNewLMDB (path c)], None)
      end
  | _, _, _, _ => (c, [], Some nil_deref)
  end.

(** The function passed to [db.initOnce.Do] (lines 115-130): the new client,
    the I/O it performed, and the message it panicked with, if any. *)
Definition once_body (os : OS) (c : Client) : Client * list io_event * option string :=
  let p := path c in
  match os_Stat os p with
  | StatNotExist =>
      match os_MkdirAll os p with
      | Some err =>
          (c, [IoStat p; IoMkdirAll p],
           Some ("failed to create db directory: " ++ err)%string)
      | None =>
          let '(c', tr, pm) := open_db os c in (c', IoStat p :: IoMkdirAll p :: tr, pm)
      end
  | _ => let '(c', tr, pm) := open_db os c in (c', IoStat p :: tr, pm)
  end.

(** [sync.Once.Do]: the body runs only while the once is not done, and the
    once is done afterwards even when the body panics. *)
Definition once_Do (os : OS) (c : Client) : Client * list io_event * option string :=
  if initOnce c then (c, [], None)
  else let '(c', tr, pm) := once_body os c in (with_once_done c', tr, pm).

(** The transaction of lines 137-144. *)
Definition open_ref_txn (refID : string) (txn : lmdb_env) : goerr + lmdb_env :=
  match txn_DBRef refID true txn with
  | inl err => inl (ELmdb err)
  | inr txn' => inr txn'
  end.

Definition initRef (os : OS) (ref : DBRef) (refID : string) (p : loc) (h : heap)
  : outcome (DBRef * option goerr) * list io_event :=
  match h !! p with
  | None => (Panic h nil_deref, [])
  | Some c =>
      let '(c1, tr, pm) := once_Do os c in
      let h1 := <[p := c1]> h in
      match pm with
      | Some msg => (Panic h1 msg, tr)
      | None =>
          match db c1 with
          | None => (Ret h1 (ref, Some (ENew "failed to initialize database")), tr)
          | Some env =>
              if db_terminated c1 then (Undef h1 "db.db.Update", tr) else
              let '(env', err) := Update (open_ref_txn refID) env in
              let h2 := <[p := with_db c1 (Some env')]> h1 in
              match err with
              | Some e =>
                  (Ret h2 (ref, Some (ENew ("failed to open db ref: " ++ err_Error e)%string)), tr)
              | None => (Ret h2 (mkDBRef refID (Some p), None), tr)
              end
          end
      end
  end.

(** [DBRef.Init]. *)
Definition Init (os : OS) (ref : DBRef) (refID : string) (p : loc) (h : heap)
  : outcome (DBRef * option goerr) * list io_event :=
  initRef os ref refID p h.

Section TypedRef.
Context {K V : Type} `{Gob K} `{Gob V} `{GoZero V}.

(** The transaction of [Put] (lines 158-182). *)
Definition put_txn (ref : DBRef) (key : K) (val : V) (sk sv : gob_seed)
    (txn : lmdb_env) : goerr + lmdb_env :=
  match txn_DBRef (id ref) false txn with
  | inl err => inl (ENew ("failed to get db ref: " ++ lmdb_err_msg err)%string)
  | inr txn1 =>
      match encode sk key with
      | inl err => inl (ENew ("failed to encode key: " ++ err_Error err)%string)
      | inr keyBuf =>
          match encode sv val with
          | inl err => inl (ENew ("failed to encode value: " ++ err_Error err)%string)
          | inr valBuf =>
              match txn_Put (id ref) keyBuf valBuf txn1 with
              | inl err => inl (ENew ("failed to put key: " ++ lmdb_err_msg err)%string)
              | inr txn2 => inr txn2
              end
          end
      end
  end.

(** [sk] and [sv] are the draws of the two encoders, of the key and of the
    value. *)
Definition Put (ref : DBRef) (key : K) (val : V) (sk sv : gob_seed) (h : heap)
  : outcome (option goerr) :=
  match ownerDB ref with
  | None => Panic h nil_deref
  | Some p =>
      match h !! p with
      | None => Panic h nil_deref
      | Some c =>
          match db c with
          | None => Panic h nil_deref
          | Some env =>
              if db_terminated c then Undef h "db.db.Update" else
              let '(env', err) := Update (put_txn ref key val sk sv) env in
              let h' := <[p := with_db c (Some env')]> h in
              match err with
              | Some e => Ret h' (Some (EJoin [ErrPutFailed; e]))
              | None => Ret h' None
              end
          end
      end
  end.

(** The transaction of [Get] (lines 191-216). *)
Definition get_txn (ref : DBRef) (key : K) (sk : gob_seed) (txn : lmdb_env)
  : goerr + V :=
  match txn_DBRef (id ref) false txn with
  | inl err => inl (ENew ("failed to get db ref: " ++ lmdb_err_msg err)%string)
  | inr txn1 =>
      match encode sk key with
      | inl err => inl (ENew ("failed to encode key: " ++ err_Error err)%string)
      | inr keyBuf =>
          match txn_Get (id ref) keyBuf txn1 with
          | inl err => inl (ENew ("failed to get key: " ++ lmdb_err_msg err)%string)
          | inr valBytes =>
              match decode valBytes with
              | inl err => inl (ENew ("failed to decode value: " ++ err_Error err)%string)
              | inr v => inr v
              end
          end
      end
  end.

(** [sk] is the draw of the key's encoder. *)
Definition Get (ref : DBRef) (key : K) (sk : gob_seed) (h : heap)
  : outcome (V * option goerr) :=
  match ownerDB ref with
  | None => Panic h nil_deref
  | Some p =>
      match h !! p with
      | None => Panic h nil_deref
      | Some c =>
          match db c with
          | None => Panic h nil_deref
          | Some env =>
              if db_terminated c then Undef h "db.db.View" else
              match View (get_txn ref key sk) env with
              | (Some e, _) => Ret h (go_zero, Some (EJoin [ErrGetFailed; e]))
              | (None, Some v) => Ret h (v, None)
              | (None, None) => Ret h (go_zero, None)
              end
          end
      end
  end.

End TypedRef.

(** [Client.Close] (lines 98-100): [TerminateSync] on the golmdb client,
    which shuts it down. *)
Definition Close (p : loc) (h : heap) : outcome unit :=
  match h !! p with
  | None => Panic h nil_deref
  | Some c =>
      match db c with
      | None => Panic h nil_deref
      | Some _ =>
          if db_terminated c then Undef h "db.db.TerminateSync"
          else Ret (<[p := with_terminated c]> h) tt
      end
  end.

(* ------------------------------------------------------------------ *)
(** ** Concrete instances used by the examples and witnesses *)

(** A stand-in for gob on strings: a one-byte type tag followed by the
    bytes of the string. *)
#[global] Instance gob_string : Gob string := {
  gob_Encode _ s := inr (x0c :: String.list_byte_of_string s);
  gob_Decode bs :=
    match bs with
    | x0c :: rest => inr (String.string_of_list_byte rest)
    | _ => inl "gob: decoding into local type string, received remote type"%string
    end
}.

#[global] Instance go_zero_string : GoZero string := EmptyString.

(** A file system where the directory is missing and can be created, and an
    engine that opens on an empty store. *)
Definition os_fresh : OS :=
  mkOS (fun _ => StatNotExist) (fun _ => None) (fun _ _ _ _ _ => inr ∅).

(** A file system where the directory cannot be created. *)
Definition os_readonly : OS :=
  mkOS (fun _ => StatNotExist) (fun _ => Some "mkdir testdb: read-only file system"%string)
       (fun _ _ _ _ _ => inl "no such file or directory"%string).

(** A file system where the directory can be created but the engine does
    not open. *)
Definition os_noengine : OS :=
  mkOS (fun _ => StatNotExist) (fun _ => None)
       (fun _ _ _ _ _ => inl "permission denied"%string).

(** The client [New("testdb")] returns, at location 1. *)
Definition c_new : Client :=
  mkClient None "testdb" false (mkOptions (Some 8) (Some 1) (Some 1) (Some ZerologNop)) false.

Definition h_new : heap := {[1%positive := c_new]}.

Definition outcome_heap {A} (o : outcome A) : heap :=
  match o with Ret h _ => h | Panic h _ => h | Undef h _ => h end.

Definition after_init (r : outcome (DBRef * option goerr) * list io_event) : heap * DBRef :=
  match r with
  | (Ret h (ref, _), _) => (h, ref)
  | (Panic h _, _) | (Undef h _, _) => (h, zero_DBRef)
  end.

(** [Init] of reference "ref_id" on a fresh directory, then [Put] of
    "my_key" -> "Hello, World" (the README example). *)
Definition ex_h1 : heap := (after_init (Init os_fresh zero_DBRef "ref_id" 1%positive h_new)).1.
Definition ex_ref : DBRef := (after_init (Init os_fresh zero_DBRef "ref_id" 1%positive h_new)).2.

Definition ex_h2 : heap := outcome_heap (Put ex_ref "my_key"%string "Hello, World"%string 0 0 ex_h1).

(* ------------------------------------------------------------------ *)
(** ** Further definitions: call sequences, goroutines, fixtures *)

Definition init_failed_msg : goerr := ENew "failed to initialize database".

(** A sequence of [Init] calls on the handle at [p]. *)
Fixpoint run_inits (calls : list (OS * DBRef * string)) (p : loc) (h : heap)
  : list (outcome (DBRef * option goerr) * list io_event) :=
  match calls with
  | [] => []
  | (os, ref, refID) :: rest =>
      let r := initRef os ref refID p h in
      r :: run_inits rest p (outcome_heap r.1)
  end.

(** The heap after such a sequence. *)
Fixpoint inits_heap (calls : list (OS * DBRef * string)) (p : loc) (h : heap) : heap :=
  match calls with
  | [] => h
  | (os, ref, refID) :: rest => inits_heap rest p (outcome_heap (initRef os ref refID p h).1)
  end.

(** The engine open of [once_body] with the resolved options fails. *)
Definition NewLMDB_fails (os : OS) (c : Client) : Prop :=
  ∀ r n b l, client_options c = mkOptions (Some r) (Some n) (Some b) (Some l) ->
    ∃ err, lmdb_NewLMDB os l (path c) r n b = inl err.

(** ** C9: concurrent [Init] calls on one handle

    Each goroutine runs [initRef] on the same client.  [sync.Once.Do] is
    modelled as the Go runtime has it: a fast path reading the done flag,
    then the once's mutex, a second check of the flag under the mutex, and
    the body, after which the flag is set and the mutex released.  The body
    is one step: no other goroutine reads the client before the flag is
    set.  The transaction of line 137 is one step as well (the engine
    serializes writers). *)

Inductive tstate :=
| TStart                      (* about to call initOnce.Do *)
| TSlow                       (* the done flag was 0: waiting for the mutex *)
| TLocked                     (* holds the once's mutex *)
| TAfterOnce                  (* Do has returned *)
| TPanicked (msg : string)    (* the body panicked in this goroutine *)
| TDone (opened : bool) (r : option goerr).
  (* returned: whether [db.db] was non-nil, and the error *)

Record world := mkWorld {
  w_client : Client;
  w_locked : bool;              (* the mutex of [initOnce] *)
  w_trace : list io_event
}.

Definition tstep (os : OS) (refID : string) (w : world) (t : tstate)
  : option (world * tstate) :=
  let c := w_client w in
  match t with
  | TStart => if initOnce c then Some (w, TAfterOnce) else Some (w, TSlow)
  | TSlow =>
      if w_locked w then None else Some (mkWorld c true (w_trace w), TLocked)
  | TLocked =>
      if initOnce c then Some (mkWorld c false (w_trace w), TAfterOnce)
      else
        let '(c', tr, pm) := once_body os c in
        let w' := mkWorld (with_once_done c') false (w_trace w ++ tr) in
        match pm with
        | Some m => Some (w', TPanicked m)
        | None => Some (w', TAfterOnce)
        end
  | TAfterOnce =>
      match db c with
      | None => Some (w, TDone false (Some init_failed_msg))
      | Some env =>
          (* no [Close] runs here, so the golmdb client is never shut down *)
          if db_terminated c then None else
          let '(env', err) := Update (open_ref_txn refID) env in
          Some (mkWorld (with_db c (Some env')) (w_locked w) (w_trace w),
                TDone true (match err with
                            | Some e => Some (ENew ("failed to open db ref: " ++ err_Error e)%string)
                            | None => None
                            end))
      end
  | TPanicked _ | TDone _ _ => None
  end.

Abbreviation sys := (world * list (string * tstate))%type.

(** Goroutine [i] takes one step. *)
Definition sys_step_at (os : OS) (s : sys) (i : nat) : option sys :=
  match s.2 !! i with
  | Some (rid, t) =>
      match tstep os rid s.1 t with
      | Some (w', t') => Some (w', <[i := (rid, t')]> s.2)
      | None => None
      end
  | None => None
  end.

Definition sys_step (os : OS) (s s' : sys) : Prop := ∃ i, sys_step_at os s i = Some s'.

Fixpoint run_schedule (os : OS) (s : sys) (sched : list nat) : option sys :=
  match sched with
  | [] => Some s
  | i :: rest =>
      match sys_step_at os s i with
      | Some s' => run_schedule os s' rest
      | None => None
      end
  end.

(** [N] goroutines calling [Init] with the identifiers [rids] on [c]. *)
Definition init_sys (c : Client) (rids : list string) : sys :=
  (mkWorld c false [], map (fun rid => (rid, TStart)) rids).

(** Each run of the once body starts with one [os.Stat]. *)
Definition open_attempts (tr : list io_event) : nat :=
  List.length (List.filter (fun ev => match ev with IoStat _ => true | _ => false end) tr).

Definition past_once (t : tstate) : bool :=
  match t with TAfterOnce | TPanicked _ | TDone _ _ => true | _ => false end.

(** What a goroutine that has left [Do] saw of the open: a panic or a nil
    [db.db] is a failure. *)
Definition observed (t : tstate) : option bool :=
  match t with
  | TPanicked _ => Some false
  | TDone b _ => Some b
  | _ => None
  end.

Definition opened_b (c : Client) : bool := if db c then true else false.

Record sys_inv (s : sys) : Prop := {
  inv_attempts : open_attempts (w_trace s.1) = if initOnce (w_client s.1) then 1 else 0;
  inv_nodb : initOnce (w_client s.1) = false -> db (w_client s.1) = None;
  inv_past : ∀ i rid t, s.2 !! i = Some (rid, t) -> past_once t = true ->
               initOnce (w_client s.1) = true;
  inv_observed : ∀ i rid t b, s.2 !! i = Some (rid, t) -> observed t = Some b ->
               b = opened_b (w_client s.1)
}.

(** A second sub-database does not fit in the default [maxdbs] of 1, so a
    [Put] through a reference to it fails and is rolled back. *)
Definition ex_other : DBRef := mkDBRef "other" (Some 1%positive).

Definition ex_put_err : goerr :=
  match Put ex_other "my_key"%string "x"%string 0 0 ex_h1 with
  | Ret _ (Some e) => e
  | _ => ErrPutFailed
  end.

(** The client [New("testdb", WithNumDBs(0))] returns. *)
Definition c_nodbs : Client :=
  mkClient None "testdb" false (mkOptions (Some 8) (Some 0) (Some 1) (Some ZerologNop)) false.

(** Two goroutines race on a handle whose directory cannot be created:
    both take the slow path, the first runs the body and panics, the second
    then finds the once done and returns the initialization error. *)
Definition race_schedule : list nat := [0; 1; 0; 0; 1; 1; 1].

Definition race_end : sys :=
  default (init_sys c_new ["a"; "b"])
    (run_schedule os_readonly (init_sys c_new ["a"; "b"]) race_schedule).

(** A Go type gob cannot handle, such as [chan int]: encoding fails, and
    so does decoding into it. *)
Inductive chan_int := mk_chan.

#[global] Instance gob_chan : Gob chan_int := {
  gob_Encode _ _ := inl "gob NewTypeObject can't handle type: chan int"%string;
  gob_Decode _ := inl "gob: type mismatch: no fields matched compiling decoder for chan int"%string
}.

#[global] Instance go_zero_chan : GoZero chan_int := mk_chan.

(** A key of 511 characters: with the type tag its encoding has 512 bytes,
    one more than the engine accepts. *)
Definition long_key : string := String.string_of_list_byte (repeat x61 511).

(** The sub-databases open on a client, and the invariant every handle made
    by [New] keeps: the engine has [numDbs] slots, the open names are
    distinct and fit in them, and no engine exists before the once ran. *)
Definition client_dbis (c : Client) : list string :=
  match db c with Some env => env_dbis env | None => [] end.

Definition dbis_at (p : loc) (h : heap) : list string :=
  match h !! p with Some c => client_dbis c | None => [] end.

Definition client_ok (n : nat) (c : Client) : Prop :=
  numDbs (client_options c) = Some n ∧
  (initOnce c = false -> db c = None) ∧
  ∀ env, db c = Some env ->
    env_maxdbs env = n ∧ NoDup (env_dbis env) ∧ List.length (env_dbis env) ≤ n.

Definition handle_ok (n : nat) (p : loc) (h : heap) : Prop :=
  ∃ c, h !! p = Some c ∧ client_ok n c.

(** The README handle after [Init], its client and engine; the same after
    a second [Put] to "my_key", and after a [Put] to another key. *)
Definition ex_c1 : Client := default c_new (ex_h1 !! 1%positive).
Definition ex_env1 : lmdb_env := default (mkEnv 0 [] ∅) (db ex_c1).
Definition ex_c2 : Client := default c_new (ex_h2 !! 1%positive).
Definition ex_env2 : lmdb_env := default (mkEnv 0 [] ∅) (db ex_c2).
Definition ex_h3 : heap := outcome_heap (Put ex_ref "my_key"%string "x"%string 0 0 ex_h2).
Definition ex_h4 : heap := outcome_heap (Put ex_ref "k2"%string "v2"%string 0 0 ex_h2).

(** What [Get] of "k2" returns on the README handle before the [Put]s. *)
Definition ex_get_k2 : string * option goerr :=
  match Get (V := string) ex_ref "k2"%string 0 ex_h1 with
  | Ret _ r => r
  | _ => (EmptyString, None)
  end.

(** The handle [New("testdb", WithNumDBs(0))] after its first [Init]. *)
Definition ex_nodbs_h1 : heap :=
  outcome_heap (initRef os_fresh zero_DBRef "ref_id" 1%positive {[1%positive := c_nodbs]}).1.
Definition ex_nodbs_c1 : Client := default c_nodbs (ex_nodbs_h1 !! 1%positive).
Definition ex_nodbs_err : goerr :=
  ENew ("failed to open db ref: " ++ lmdb_err_msg MDB_DBS_FULL)%string.

(** ** Programs: sequences of calls on the package *)

(** One call a program makes: [Put] or [Get] through a reference value of
    any key and value types, [Init] of a reference value on the handle at
    a location, or [Close] of the handle at a location.  [run_ops] makes
    the calls in order; a call that panics is taken as recovered by the
    caller, who goes on with the state at the panic. *)
Inductive op : Type :=
| OPut {K V : Type} `{Gob K} `{Gob V} (ref : DBRef) (key : K) (val : V) (sk sv : gob_seed)
| OGet {K V : Type} `{Gob K} `{Gob V} `{GoZero V} (ref : DBRef) (key : K) (sk : gob_seed)
| OInit (os : OS) (ref : DBRef) (refID : string) (p : loc)
| OClose (p : loc).

Definition op_step (o : op) (h : heap) : heap :=
  match o with
  | @OPut K V _ _ ref key val sk sv => outcome_heap (Put ref key val sk sv h)
  | @OGet K V _ _ _ ref key sk => outcome_heap (Get (V := V) ref key sk h)
  | OInit os ref refID p => outcome_heap (initRef os ref refID p h).1
  | OClose p => outcome_heap (Close p h)
  end.

Fixpoint run_ops (ops : list op) (h : heap) : heap :=
  match ops with
  | [] => h
  | o :: rest => run_ops rest (op_step o h)
  end.

(** The call [o] does not touch the entry under the key bytes [kb] in the
    sub-database [dbi] of the handle at [p]: it is no [Put] to those key
    bytes there, and no [Close] of that handle. *)
Definition leaves_entry (p : loc) (dbi : string) (kb : bytes) (o : op) : Prop :=
  match o with
  | OPut ref key _ sk _ => ownerDB ref ≠ Some p ∨ id ref ≠ dbi ∨ encode sk key ≠ inr kb
  | OClose q => q ≠ p
  | _ => True
  end.

(** The handle at [p] is running with its once done, and its open
    sub-database [dbi] maps the key bytes [kb] to [vb]. *)
Definition holds_entry (p : loc) (dbi : string) (kb vb : bytes) (h : heap) : Prop :=
  ∃ c env, h !! p = Some c ∧ initOnce c = true ∧ db c = Some env ∧
    db_terminated c = false ∧ dbi ∈ env_dbis env ∧
    env_data env !! dbi ≫= lookup kb = Some vb.

(** A Go [map[string]string], by its entries.  gob writes the entries in
    iteration order: here the entries rotated by the seed, so two seeds
    give two encodings of a map with two entries. *)
Record go_map := mkMap { map_entries : list (string * string) }.

Definition gob_map_entry (kv : string * string) : bytes :=
  String.list_byte_of_string kv.1 ++ x00 :: String.list_byte_of_string kv.2 ++ [x00].

Fixpoint split_nul (bs acc : list byte) : list (list byte) :=
  match bs with
  | [] => match acc with [] => [] | _ => [rev acc] end
  | x00 :: rest => rev acc :: split_nul rest []
  | b :: rest => split_nul rest (b :: acc)
  end.

Fixpoint pair_up (l : list (list byte)) : option (list (string * string)) :=
  match l with
  | [] => Some []
  | k :: v :: rest =>
      (fun t => (String.string_of_list_byte k, String.string_of_list_byte v) :: t)
        <$> pair_up rest
  | [_] => None
  end.

#[global] Instance gob_map : Gob go_map := {
  gob_Encode s m := inr (x0e :: List.concat (map gob_map_entry (rotate s (map_entries m))));
  gob_Decode bs :=
    match bs with
    | x0e :: rest =>
        match pair_up (split_nul rest []) with
        | Some es => inr (mkMap es)
        | None => inl "gob: decoding map: unexpected EOF"%string
        end
    | _ => inl "gob: decoding into local type map[string]string, received remote type"%string
    end
}.

(** A Go struct with an exported field [Name] and an unexported field
    [password]: gob encodes the exported fields only, and decoding leaves
    the others at their zero value. *)
Record User := mkUser { Name : string; password : string }.

#[global] Instance gob_user : Gob User := {
  gob_Encode _ u := inr (x10 :: String.list_byte_of_string (Name u));
  gob_Decode bs :=
    match bs with
    | x10 :: rest => inr (mkUser (String.string_of_list_byte rest) EmptyString)
    | _ => inl "gob: decoding into local type User, received remote type"%string
    end
}.

#[global] Instance go_zero_user : GoZero User := mkUser EmptyString EmptyString.

Definition ex_map : go_map := mkMap [("a", "1"); ("b", "2")]%string.
Definition ex_user : User := mkUser "alice" "s3cret".

(** The README handle after [Put]s keyed by [ex_map] under the draws 0
    and 1, and after a [Put] of [ex_user]. *)
Definition ex_map_h1 : heap := outcome_heap (Put ex_ref ex_map "old"%string 0 0 ex_h1).
Definition ex_map_h2 : heap := outcome_heap (Put ex_ref ex_map "new"%string 1 0 ex_map_h1).
Definition ex_user_h : heap := outcome_heap (Put ex_ref "alice"%string ex_user 0 0 ex_h1).

(** A program run between a [Put] of "my_key" and a [Get] of it on the
    README handle. *)
Definition ex_ops : list op :=
  [OPut ex_ref "k2"%string "v2"%string 0 0;
   OGet (V := string) ex_ref "k2"%string 0;
   OInit os_fresh zero_DBRef "ref_id" 1%positive;
   OPut ex_other "my_key"%string ex_user 0 0;
   OClose 2%positive].

(* ================================================================== *)
(** * Properties *)

Example New_testdb : New "testdb" [] = inr c_new.
Proof. reflexivity. Qed.

Example readme_get_hit :
  Get (V := string) ex_ref "my_key"%string 0 ex_h2 = Ret ex_h2 ("Hello, World"%string, None).
Proof. vm_compute. reflexivity. Qed.

Example readme_get_miss :
  Get (V := string) ex_ref "bob"%string 0 ex_h2 =
    Ret ex_h2 (EmptyString, Some (EJoin [ErrGetFailed;
      ENew ("failed to get key: " ++ lmdb_err_msg MDB_NOTFOUND)%string])).
Proof. vm_compute. reflexivity. Qed.


(** ** The engine *)

Lemma txn_DBRef_opened name create e e' :
  txn_DBRef name create e = inr e' -> name ∈ env_dbis e'.
Proof.
  unfold txn_DBRef. intros Hd.
  repeat (case_decide || case_match); simplify_eq/=; try done; by left.
Qed.

Lemma txn_DBRef_open_id name create e :
  name ∈ env_dbis e -> txn_DBRef name create e = inr e.
Proof. intros Hin. unfold txn_DBRef. by case_decide. Qed.

Lemma txn_DBRef_no_create_data name e e' :
  txn_DBRef name false e = inr e' -> env_data e' = env_data e.
Proof.
  unfold txn_DBRef. intros Hd.
  repeat (case_decide || case_match); simplify_eq/=; done.
Qed.

Lemma Update_error f e e' err :
  Update f e = (e', Some err) -> e' = e ∧ f e = inl err.
Proof. unfold Update. case_match; intros; simplify_eq; auto. Qed.

Lemma Update_ok f e e' :
  Update f e = (e', None) -> f e = inr e'.
Proof. unfold Update. case_match; intros; simplify_eq; auto. Qed.

Lemma with_db_id c env : db c = Some env -> with_db c (Some env) = c.
Proof. destruct c; simpl; intros ->; reflexivity. Qed.

Lemma with_db_with_db c d1 d2 : with_db (with_db c d1) d2 = with_db c d2.
Proof. by destruct c. Qed.

Lemma with_db_db c d : db (with_db c d) = d.
Proof. by destruct c. Qed.

Lemma txn_DBRef_no_create_shape name e e' :
  txn_DBRef name false e = inr e' ->
  env_maxdbs e' = env_maxdbs e ∧ env_data e' = env_data e ∧
  (env_dbis e' = env_dbis e ∨ env_dbis e' = name :: env_dbis e).
Proof.
  unfold txn_DBRef. intros Hd.
  repeat (case_decide || case_match); simplify_eq/=; auto.
Qed.

Lemma txn_Put_shape dbi k v e e' :
  txn_Put dbi k v e = inr e' ->
  e' = mkEnv (env_maxdbs e) (env_dbis e)
         (<[dbi := <[k := v]> (default ∅ (env_data e !! dbi))]> (env_data e)) ∧
  ¬ (List.length k = 0 ∨ MDB_MAXKEYSIZE < List.length k ∨
     (MDB_MAXDATASIZE < N.of_nat (List.length v))%N).
Proof. unfold txn_Put. case_decide; intros; simplify_eq; done. Qed.

(** A transaction that opens a sub-database keeps every sub-database and
    every open name. *)
Lemma txn_DBRef_keeps name create env env' dbi m :
  txn_DBRef name create env = inr env' -> env_data env !! dbi = Some m ->
  env_data env' !! dbi = Some m ∧ env_dbis env ⊆ env_dbis env'.
Proof.
  unfold txn_DBRef. intros Hd Hm.
  repeat (case_decide || case_match); simplify_eq/=; try done;
    (split; [|set_solver]); try done.
  rewrite lookup_insert_ne; [done|]. intros ->. congruence.
Qed.

Section TypedRefProps.
Context {K V : Type} `{Gob K} `{Gob V} `{GoZero V}.

Lemma Put_success_inv (ref : DBRef) (key : K) (val : V) (sk sv : gob_seed) (h h' : heap) :
  Put ref key val sk sv h = Ret h' None ->
  ∃ p c env txn1 kb vb env',
    ownerDB ref = Some p ∧ h !! p = Some c ∧ db c = Some env ∧ db_terminated c = false ∧
    txn_DBRef (id ref) false env = inr txn1 ∧
    encode sk key = inr kb ∧ encode sv val = inr vb ∧
    txn_Put (id ref) kb vb txn1 = inr env' ∧
    h' = <[p := with_db c (Some env')]> h.
Proof.
  unfold Put. intros HPut.
  destruct (ownerDB ref) as [p|] eqn:Ho; [|done].
  destruct (h !! p) as [c|] eqn:Hc; [|done].
  destruct (db c) as [env|] eqn:Hdb; [|done].
  destruct (db_terminated c) eqn:Ht; [done|].
  destruct (Update (put_txn ref key val sk sv) env) as [env' [e|]] eqn:HU; [done|].
  simplify_eq/=. apply Update_ok in HU. unfold put_txn in HU.
  destruct (txn_DBRef (id ref) false env) as [|txn1] eqn:Hd; [done|].
  destruct (encode sk key) as [|kb] eqn:Hk; [done|].
  destruct (encode sv val) as [|vb] eqn:Hv; [done|].
  destruct (txn_Put (id ref) kb vb txn1) as [|env''] eqn:Hp; [done|]. simplify_eq.
  exists p, c, env, txn1, kb, vb, env'. naive_solver.
Qed.

Lemma Put_success_eq (ref : DBRef) (key : K) (val : V) (sk sv : gob_seed) (h : heap)
    p c env txn1 kb vb env' :
  ownerDB ref = Some p -> h !! p = Some c -> db c = Some env -> db_terminated c = false ->
  txn_DBRef (id ref) false env = inr txn1 ->
  encode sk key = inr kb -> encode sv val = inr vb ->
  txn_Put (id ref) kb vb txn1 = inr env' ->
  Put ref key val sk sv h = Ret (<[p := with_db c (Some env')]> h) None.
Proof.
  intros Ho Hc Hdb Ht Hd Hk Hv Hp. unfold Put. rewrite Ho, Hc, Hdb, Ht.
  unfold Update, put_txn. rewrite Hd, Hk, Hv, Hp. done.
Qed.

(** A [Put] leaves the heap as it was unless it returns nil. *)
Lemma Put_heap (ref : DBRef) (key : K) (val : V) (sk sv : gob_seed) (h : heap) :
  outcome_heap (Put ref key val sk sv h) = h ∨
  Put ref key val sk sv h = Ret (outcome_heap (Put ref key val sk sv h)) None.
Proof.
  unfold Put. destruct (ownerDB ref) as [p|]; [|by left].
  destruct (h !! p) as [c|] eqn:Hc; [|by left].
  destruct (db c) as [env|] eqn:Hdb; [|by left].
  destruct (db_terminated c); [by left|].
  destruct (Update (put_txn ref key val sk sv) env) as [env' [e|]] eqn:HU.
  - left. apply Update_error in HU as [-> _]. simpl. rewrite with_db_id, insert_id; done.
  - by right.
Qed.

Lemma Get_heap (ref : DBRef) (key : K) (sk : gob_seed) (h : heap) :
  outcome_heap (Get (V := V) ref key sk h) = h.
Proof. unfold Get. repeat case_match; done. Qed.

(** ** C3: [Put] commits or leaves everything as it was *)

(** C3. A [Put] that returns an error leaves the heap, and so every stored
    entry, as it was, and its error is [errors.Join(ErrPutFailed, cause)]
    for the error [cause] of the step that failed.  A [Put] that returns nil
    has committed its transaction: the sub-database of the reference now
    maps the encoded key to the encoded value, replacing any earlier entry
    for those key bytes, and nothing else changed.  This holds for every
    draw of gob's map order in the two encodings. *)
Theorem Put_commit_or_abort (ref : DBRef) (key : K) (val : V) (sk sv : gob_seed)
    (h h' : heap) (r : option goerr) :
  Put ref key val sk sv h = Ret h' r ->
  (∀ e, r = Some e ->
     h' = h ∧ errors_Is e ErrPutFailed = true ∧
     ∃ p c env cause, ownerDB ref = Some p ∧ h !! p = Some c ∧ db c = Some env ∧
       put_txn ref key val sk sv env = inl cause ∧ e = EJoin [ErrPutFailed; cause]) ∧
  (r = None ->
     ∃ p c env txn1 kb vb,
       ownerDB ref = Some p ∧ h !! p = Some c ∧ db c = Some env ∧
       txn_DBRef (id ref) false env = inr txn1 ∧
       encode sk key = inr kb ∧ encode sv val = inr vb ∧
       h' = <[p := with_db c (Some (mkEnv (env_maxdbs txn1) (env_dbis txn1)
                (<[id ref := <[kb := vb]> (default ∅ (env_data txn1 !! id ref))]>
                   (env_data txn1))))]> h).
Proof.
  unfold Put. intros HPut.
  destruct (ownerDB ref) as [p|] eqn:Ho; [|done].
  destruct (h !! p) as [c|] eqn:Hc; [|done].
  destruct (db c) as [env|] eqn:Hdb; [|done].
  destruct (db_terminated c) eqn:Ht; [done|].
  destruct (Update (put_txn ref key val sk sv) env) as [env' err] eqn:HU.
  destruct err as [cause|]; simplify_eq/=.
  - apply Update_error in HU as [-> Hf]. split; [|done].
    intros e [= <-]. rewrite with_db_id, insert_id; [|done|done].
    split; [done|]. split; [done|]. eauto 10.
  - apply Update_ok in HU. split; [done|]. intros _.
    unfold put_txn, txn_Put in HU.
    destruct (txn_DBRef (id ref) false env) as [|txn1] eqn:Hd; [done|].
    destruct (encode sk key) as [|kb] eqn:Hk; [done|].
    destruct (encode sv val) as [|vb] eqn:Hv; [done|].
    case_decide; simplify_eq/=.
    exists p, c, env, txn1, kb, vb. eauto 10.
Qed.

(** ** C2: a failing [Get] *)

Lemma get_txn_missing (ref : DBRef) (key : K) (sk : gob_seed) (env : lmdb_env) :
  (∀ kb, encode sk key = inr kb -> env_data env !! id ref ≫= lookup kb = None) ->
  ∃ cause, get_txn (V := V) ref key sk env = inl cause.
Proof.
  intros Hmiss. unfold get_txn.
  destruct (txn_DBRef (id ref) false env) as [|txn1] eqn:Hd; [eauto|].
  destruct (encode sk key) as [|kb] eqn:Hk; [eauto|].
  unfold txn_Get. rewrite (txn_DBRef_no_create_data _ _ _ Hd), (Hmiss kb eq_refl).
  eauto.
Qed.

(** C2. Whenever [Get] returns an error, it returns the zero value of [V]
    with it, the error is [errors.Join(ErrGetFailed, cause)] (so
    [errors.Is(err, ErrGetFailed)] holds) and nothing is written.  On an
    initialized reference of a running handle, a key whose encoding has no
    entry in the reference's sub-database (for instance a key never put)
    always makes [Get] fail that way: absence is never reported as a
    success. *)
Theorem Get_failure_is_GetFailed (ref : DBRef) (key : K) (sk : gob_seed) (h : heap) :
  (∀ h' v e, Get ref key sk h = Ret h' (v, Some e) ->
     h' = h ∧ v = go_zero ∧ errors_Is e ErrGetFailed = true ∧
     ∃ cause, e = EJoin [ErrGetFailed; cause]) ∧
  (∀ p c env, ownerDB ref = Some p -> h !! p = Some c -> db c = Some env ->
     db_terminated c = false ->
     (∀ kb, encode sk key = inr kb -> env_data env !! id ref ≫= lookup kb = None) ->
     ∃ e, Get ref key sk h = Ret h (go_zero, Some e) ∧
          errors_Is e ErrGetFailed = true).
Proof.
  split.
  - intros h' v e. unfold Get.
    destruct (ownerDB ref) as [p|]; [|done].
    destruct (h !! p) as [c|]; [|done].
    destruct (db c) as [env|]; [|done].
    destruct (db_terminated c); [done|].
    unfold View. destruct (get_txn ref key sk env); intros; simplify_eq/=; eauto 10.
  - intros p c env Ho Hc Hdb Ht Hmiss.
    destruct (get_txn_missing ref key sk env Hmiss) as [cause Hg].
    unfold Get. rewrite Ho, Hc, Hdb, Ht. unfold View. rewrite Hg. eauto.
Qed.

End TypedRefProps.

(** ** [New] *)

Lemma apply_options_ok (opts : list Option) (o : options) :
  ∃ o', apply_options opts o = inr o' ∧
    ((∀ n, WithNumReaders n ∉ opts) -> numReaders o' = numReaders o) ∧
    ((∀ n, WithNumDBs n ∉ opts) -> numDbs o' = numDbs o) ∧
    ((∀ n, WithBatchSize n ∉ opts) -> batchSize o' = batchSize o) ∧
    ((∀ l, WithLogger l ∉ opts) -> log o' = log o).
Proof.
  revert o. induction opts as [|opt opts IH]; intros o; simpl.
  - eexists; repeat split; eauto.
  - destruct opt as [n|n|n|l]; simpl;
    match goal with |- context [apply_options opts ?o1] =>
      destruct (IH o1) as (o' & -> & H1 & H2 & H3 & H4) end;
    eexists; (split; [done|]); simpl;
    repeat split; intros Hn;
    first [ exfalso; eapply Hn; by left
          | rewrite ?H1, ?H2, ?H3, ?H4; [done|..];
            intros ? ?; eapply Hn; by right ].
Qed.

Lemma New_resolved dir opts c :
  New dir opts = inr c ->
  db c = None ∧ initOnce c = false ∧
  ∃ r n b l, client_options c = mkOptions (Some r) (Some n) (Some b) (Some l).
Proof.
  unfold New. destruct (apply_options_ok opts (mkOptions None None None None))
    as (o & -> & _).
  intros [= <-]. simpl. split; [done|]. split; [done|].
  destruct o as [[] [] [] []]; simpl; eauto.
Qed.

(** C8. [New] never fails (no [Option] the package offers reports an error),
    opens nothing (the client has no engine connection and its once has not
    run), keeps the path, and resolves every option: the number of readers
    defaults to 8, the number of sub-databases to 1, the batch size to 1 and
    the logger to [zerolog.Nop()] when the option is not given. *)
Theorem New_defaults (dir : string) (opts : list Option) :
  ∃ c, New dir opts = inr c ∧
    db c = None ∧ path c = dir ∧ initOnce c = false ∧
    is_Some (numReaders (client_options c)) ∧ is_Some (numDbs (client_options c)) ∧
    is_Some (batchSize (client_options c)) ∧ is_Some (log (client_options c)) ∧
    ((∀ n, WithNumReaders n ∉ opts) -> numReaders (client_options c) = Some 8) ∧
    ((∀ n, WithNumDBs n ∉ opts) -> numDbs (client_options c) = Some 1) ∧
    ((∀ n, WithBatchSize n ∉ opts) -> batchSize (client_options c) = Some 1) ∧
    ((∀ l, WithLogger l ∉ opts) -> log (client_options c) = Some ZerologNop).
Proof.
  unfold New. destruct (apply_options_ok opts (mkOptions None None None None))
    as (o & -> & H1 & H2 & H3 & H4); simpl in *.
  eexists; split; [reflexivity|]. simpl.
  destruct o as [r n b l]; simpl in *.
  repeat split;
    first [ by destruct r, n, b, l
          | intros Hn; first [rewrite (H1 Hn) | rewrite (H2 Hn)
                             | rewrite (H3 Hn) | rewrite (H4 Hn)];
            by destruct r, n, b, l ].
Qed.

(** ** The once and [initRef] *)

Lemma open_db_panic os c c' tr m :
  open_db os c = (c', tr, Some m) -> c' = c.
Proof. unfold open_db. repeat case_match; intros; simplify_eq; done. Qed.

Lemma once_body_panic os c c' tr m :
  once_body os c = (c', tr, Some m) -> c' = c.
Proof.
  unfold once_body.
  destruct (os_Stat os (path c));
    [| destruct (os_MkdirAll os (path c)) as [err|]; [by intros [= <- _ _]|] |];
    destruct (open_db os c) as [[c1 tr1] pm1] eqn:Ho; intros [= <- _ ->];
    eauto using open_db_panic.
Qed.

Lemma once_Do_done os c c' tr pm :
  once_Do os c = (c', tr, pm) -> initOnce c' = true.
Proof.
  unfold once_Do. destruct (initOnce c) eqn:Hi.
  - by intros [= <- _ _].
  - destruct (once_body os c) as [[c1 tr1] pm1]. by intros [= <- _ _].
Qed.

(** Once the once has run and left no connection, [initRef] performs no I/O,
    changes nothing and returns the initialization error. *)
Lemma initRef_after_failed_open os ref refID p h c :
  h !! p = Some c -> initOnce c = true -> db c = None ->
  initRef os ref refID p h = (Ret h (ref, Some init_failed_msg), []).
Proof.
  intros Hc Hi Hdb. unfold initRef. rewrite Hc. unfold once_Do. rewrite Hi.
  rewrite Hdb. by rewrite insert_id.
Qed.

Lemma initRef_first_panic os ref refID dir opts c p h h1 msg tr :
  New dir opts = inr c -> h !! p = Some c ->
  initRef os ref refID p h = (Panic h1 msg, tr) ->
  h1 = <[p := with_once_done c]> h.
Proof.
  intros HN Hc. destruct (New_resolved _ _ _ HN) as (Hdb & Hi & _).
  unfold initRef. rewrite Hc. unfold once_Do. rewrite Hi.
  destruct (once_body os c) as [[c1 tr1] [m|]] eqn:Hb.
  - apply once_body_panic in Hb as ->. by intros [= <- _ _].
  - simpl. repeat case_match; done.
Qed.


(** C7. If the first [Init] on a handle made by [New] panics because the
    directory creation or the engine open failed, the handle stays failed:
    every later sequence of [Init] calls on it, whatever the file system
    then does, returns the error "failed to initialize database" for each
    call, performs no I/O (the open is not run again) and changes nothing. *)
Theorem open_failure_is_permanent (os : OS) (ref : DBRef) (refID : string)
    (dir : string) (opts : list Option) (c : Client) (p : loc) (h h1 : heap)
    (msg : string) (tr : list io_event) (calls : list (OS * DBRef * string)) :
  New dir opts = inr c -> h !! p = Some c ->
  initRef os ref refID p h = (Panic h1 msg, tr) ->
  run_inits calls p h1 =
    map (fun '(_, r, _) => (Ret h1 (r, Some init_failed_msg), [])) calls.
Proof.
  intros HN Hc HI.
  pose proof (initRef_first_panic _ _ _ _ _ _ _ _ _ _ _ HN Hc HI) as ->.
  destruct (New_resolved _ _ _ HN) as (Hdb & _ & _).
  induction calls as [|[[os' ref'] refID'] calls IH]; [done|]. simpl.
  rewrite (initRef_after_failed_open os' ref' refID' p _ (with_once_done c));
    [| apply lookup_insert_eq | done | done].
  simpl. by rewrite IH.
Qed.

(** C4 (as the code has it). When the first [Init] on a handle made by [New]
    finds that the directory cannot be created, or that the engine cannot be
    opened, it panics with "failed to create db directory: ..." or "failed
    to open db: ..." instead of returning an error.  The once is then done
    with no connection, so the next [Init] on the handle returns the error
    "failed to initialize database" and leaves the handle as it is. *)
Theorem init_open_failure_panics (os : OS) (ref : DBRef) (refID : string)
    (dir : string) (opts : list Option) (c : Client) (p : loc) (h : heap) :
  New dir opts = inr c -> h !! p = Some c ->
  (os_Stat os dir = StatNotExist ∧ os_MkdirAll os dir <> None) ∨
  ((os_Stat os dir <> StatNotExist ∨ os_MkdirAll os dir = None) ∧ NewLMDB_fails os c) ->
  let h1 := <[p := with_once_done c]> h in
  (∃ msg tr, initRef os ref refID p h = (Panic h1 msg, tr) ∧
     ((∃ err, msg = "failed to create db directory: " ++ err) ∨
      (∃ err, msg = "failed to open db: " ++ err))%string) ∧
  (∀ os' ref' refID',
     initRef os' ref' refID' p h1 = (Ret h1 (ref', Some init_failed_msg), [])).
Proof.
  intros HN Hc Hfail h1.
  destruct (New_resolved _ _ _ HN) as (Hdb & Hi & r & n & b & l & Ho).
  assert (Hpath : path c = dir).
  { unfold New in HN. destruct (apply_options _ _); by simplify_eq. }
  split.
  - unfold initRef. rewrite Hc. unfold once_Do. rewrite Hi. unfold once_body.
    rewrite Hpath.
    destruct Hfail as [[Hs Hm] | [Hs Hopen]].
    + rewrite Hs. destruct (os_MkdirAll os dir) as [err|]; [|done].
      eauto 10.
    + destruct (Hopen r n b l Ho) as [err He].
      assert (Hod : open_db os c = (c, [IoNewLMDB dir],
                 Some ("failed to open db: " ++ err)%string)).
      { unfold open_db. rewrite Ho. simpl. rewrite Hpath in *. by rewrite He. }
      destruct Hs as [Hs | Hm].
      * destruct (os_Stat os dir); try done;
          rewrite Hod; simpl; eauto 10.
      * destruct (os_Stat os dir); rewrite ?Hm, Hod; simpl; eauto 10.
  - intros os' ref' refID'.
    apply (initRef_after_failed_open _ _ _ _ _ (with_once_done c));
      [apply lookup_insert_eq | done | done].
Qed.

Lemma initRef_success os ref refID p h h1 r1 tr :
  initRef os ref refID p h = (Ret h1 (r1, None), tr) ->
  r1 = mkDBRef refID (Some p) ∧
  ∃ c env, h1 !! p = Some c ∧ initOnce c = true ∧ db c = Some env ∧
           db_terminated c = false ∧ refID ∈ env_dbis env.
Proof.
  unfold initRef. destruct (h !! p) as [c|]; [|done].
  destruct (once_Do os c) as [[c1 tr1] pm] eqn:HDo.
  apply once_Do_done in HDo.
  destruct pm; [done|].
  destruct (db c1) as [env|]; [|done].
  destruct (db_terminated c1) eqn:Ht; [done|].
  destruct (Update (open_ref_txn refID) env) as [env' [e|]] eqn:HU; [done|].
  intros [= <- <- _]. split; [done|].
  apply Update_ok in HU. unfold open_ref_txn in HU.
  destruct (txn_DBRef refID true env) as [|t] eqn:Hd; [done|]. simplify_eq.
  eexists _, env'. rewrite lookup_insert_eq. cbn.
  repeat split; eauto using txn_DBRef_opened.
Qed.

(** C6. Once an [Init] with [refID] on the handle at [p] has succeeded, a
    second [Init] with the same [refID] on that handle, from any reference
    value and whatever the file system does, succeeds too: it performs no
    I/O, leaves the heap exactly as it was and yields the same reference as
    the first call, so both references behave identically afterwards. *)
Theorem initRef_idempotent (os os' : OS) (ref ref' : DBRef) (refID : string)
    (p : loc) (h h1 : heap) (r1 : DBRef) (tr : list io_event) :
  initRef os ref refID p h = (Ret h1 (r1, None), tr) ->
  initRef os' ref' refID p h1 = (Ret h1 (r1, None), []).
Proof.
  intros HI.
  destruct (initRef_success _ _ _ _ _ _ _ _ HI)
    as (-> & c & env & Hc & Hi & Hdb & Ht & Hin).
  unfold initRef. rewrite Hc. unfold once_Do. rewrite Hi. simpl.
  rewrite Hdb, Ht. unfold Update, open_ref_txn.
  rewrite txn_DBRef_open_id by done.
  rewrite insert_insert_eq, with_db_id, insert_id; done.
Qed.

Lemma open_db_ok os c c1 tr :
  open_db os c = (c1, tr, None) ->
  ∃ r n b l data, client_options c = mkOptions (Some r) (Some n) (Some b) (Some l) ∧
    lmdb_NewLMDB os l (path c) r n b = inr data ∧
    c1 = with_conn c (mkEnv n [] data) ∧ tr = [IoNewLMDB (path c)].
Proof.
  unfold open_db. destruct (client_options c) as [[r|] [n|] [b|] [l|]] eqn:Ho;
    simpl; try done.
  destruct (lmdb_NewLMDB os l (path c) r n b) as [|data] eqn:He; [done|].
  intros [= <- <-]. eauto 10.
Qed.

Lemma once_body_ok os c c1 tr :
  once_body os c = (c1, tr, None) ->
  ∃ r n b l data, client_options c = mkOptions (Some r) (Some n) (Some b) (Some l) ∧
    lmdb_NewLMDB os l (path c) r n b = inr data ∧
    c1 = with_conn c (mkEnv n [] data) ∧
    tr = IoStat (path c) ::
           (match os_Stat os (path c) with StatNotExist => [IoMkdirAll (path c)] | _ => [] end)
           ++ [IoNewLMDB (path c)].
Proof.
  unfold once_body.
  destruct (os_Stat os (path c)) eqn:Hs;
    [| destruct (os_MkdirAll os (path c)); [done|] |];
    destruct (open_db os c) as [[c' tr'] [m|]] eqn:Ho; try done;
    intros [= <- <-];
    destruct (open_db_ok _ _ _ _ Ho) as (r & n & b & l & data & Hopt & He & -> & ->);
    exists r, n, b, l, data; done.
Qed.

(** ** C1: [Get] after [Put], across other calls *)

Lemma initRef_other os ref refID p h q :
  q ≠ p -> outcome_heap (initRef os ref refID p h).1 !! q = h !! q.
Proof.
  intros Hqp. unfold initRef.
  repeat case_match; simpl; by rewrite ?lookup_insert_ne by done.
Qed.

Lemma Close_other p h q : q ≠ p -> outcome_heap (Close p h) !! q = h !! q.
Proof. intros Hqp. unfold Close. repeat case_match; simpl; by rewrite ?lookup_insert_ne. Qed.

(** On a running handle whose once has run, [initRef] changes only the
    engine state of the handle, by the transaction of line 137 or not at
    all. *)
Lemma initRef_live os ref refID p h c env :
  h !! p = Some c -> initOnce c = true -> db c = Some env -> db_terminated c = false ->
  ∃ env', outcome_heap (initRef os ref refID p h).1 = <[p := with_db c (Some env')]> h ∧
          (env' = env ∨ txn_DBRef refID true env = inr env').
Proof.
  intros Hc Hi Hdb Ht. unfold initRef. rewrite Hc. unfold once_Do. rewrite Hi. simpl.
  rewrite Hdb, Ht.
  destruct (Update (open_ref_txn refID) env) as [env' err] eqn:HU.
  exists env'. split.
  - destruct err; simpl; by rewrite insert_insert_eq.
  - destruct err.
    + apply Update_error in HU as [-> _]. by left.
    + apply Update_ok in HU. unfold open_ref_txn in HU. right.
      destruct (txn_DBRef refID true env); by simplify_eq.
Qed.

Lemma op_step_holds p dbi kb vb h o :
  holds_entry p dbi kb vb h -> leaves_entry p dbi kb o ->
  holds_entry p dbi kb vb (op_step o h).
Proof.
  intros (c & env & Hc & Hi & Hdb & Ht & Hin & Hl) Hleave.
  destruct o as [K' V' GK GV ref key val sk sv | K' V' GK GV GZ ref key sk
                 | os ref refID q | q]; simpl in *.
  - destruct (Put_heap ref key val sk sv h) as [-> | HP]; [by exists c, env|].
    apply Put_success_inv in HP
      as (q & c' & env0 & txn1 & kb' & vb' & env' & Ho & Hc' & Hdb' & Ht' & Hd & Hk & Hv & Hp & ->).
    destruct (decide (q = p)) as [->|Hqp].
    + rewrite Hc in Hc'. injection Hc' as <-. rewrite Hdb in Hdb'. injection Hdb' as <-.
      destruct (txn_DBRef_no_create_shape _ _ _ Hd) as (_ & Hdata & Hdbis).
      apply txn_Put_shape in Hp as [-> _].
      eexists _, _. rewrite lookup_insert_eq. split; [done|].
      split; [done|]. split; [done|]. split; [done|]. simpl. split.
      * destruct Hdbis as [-> | ->]; [done|]. by right.
      * rewrite Hdata. destruct (decide (id ref = dbi)) as [<-|Hid].
        -- rewrite lookup_insert_eq. simpl.
           assert (kb' ≠ kb).
           { intros ->. destruct Hleave as [Hn | [Hn | Hn]]; by apply Hn. }
           rewrite lookup_insert_ne by done.
           destruct (env_data env !! id ref); done.
        -- by rewrite lookup_insert_ne by done.
    + exists c, env. by rewrite lookup_insert_ne by done.
  - rewrite Get_heap. by exists c, env.
  - destruct (decide (q = p)) as [->|Hqp].
    + destruct (initRef_live os ref refID p h c env Hc Hi Hdb Ht) as (env' & -> & Henv).
      exists (with_db c (Some env')), env'. rewrite lookup_insert_eq.
      split; [done|]. split; [done|]. split; [done|]. split; [done|].
      destruct Henv as [-> | Hd]; [done|].
      destruct (env_data env !! dbi) as [m|] eqn:Hm; [|done].
      destruct (txn_DBRef_keeps _ _ _ _ _ _ Hd Hm) as [Hm' Hsub].
      split; [by apply Hsub|]. by rewrite Hm'.
    + exists c, env. by rewrite initRef_other by done.
  - exists c, env. by rewrite Close_other by done.
Qed.

Lemma run_ops_holds p dbi kb vb h ops :
  holds_entry p dbi kb vb h -> Forall (leaves_entry p dbi kb) ops ->
  holds_entry p dbi kb vb (run_ops ops h).
Proof.
  intros Hh Hops. revert h Hh.
  induction Hops as [|o ops Ho Hops IH]; intros h Hh; simpl; [done|].
  apply IH. by apply op_step_holds.
Qed.

Section RoundTrip.
Context {K V : Type} `{Gob K} `{Gob V} `{GoZero V}.

(** C1 (as the code has it).  Take a reference returned by a successful
    [Init] with [refID] on the handle at [p], and a [Put] of [val] under
    [key] through it that returns nil.  Then run any program [ops] that
    does not [Put] to the same key bytes of that sub-database and does not
    close the handle: [Put]s to other keys, sub-databases or handles,
    [Get]s, [Init]s of other reference values, [Close] of other handles.
    A [Get] of [key] through the reference then returns [val] with a nil
    error, provided (1) its encoding of [key] gives the bytes the [Put]'s
    did, and (2) gob decodes the bytes the [Put] stored for [val] back to
    [val].  Neither proviso holds for every Go type: see
    [put_get_not_round_trip]. *)
Theorem Put_then_Get (os : OS) (ref0 ref : DBRef) (refID : string) (p : loc)
    (h0 h h1 : heap) (tr : list io_event) (key : K) (val : V)
    (sk sv sk' : gob_seed) (ops : list op) :
  initRef os ref0 refID p h0 = (Ret h (ref, None), tr) ->
  Put ref key val sk sv h = Ret h1 None ->
  (∀ kb, encode sk key = inr kb -> Forall (leaves_entry p refID kb) ops) ->
  encode sk' key = encode sk key ->
  (∀ vb, gob_Encode sv val = inr vb -> gob_Decode vb = inr val) ->
  Get ref key sk' (run_ops ops h1) = Ret (run_ops ops h1) (val, None).
Proof.
  intros HI HP Hops Hk' Hrt.
  destruct (initRef_success _ _ _ _ _ _ _ _ HI) as (-> & c & env & Hc & Hi & Hdb & Ht & Hin).
  apply Put_success_inv in HP
    as (p' & c' & env0 & txn1 & kb & vb & env' & Ho & Hc' & Hdb' & Ht' & Hd & Hk & Hv & Hp & ->).
  simpl in Ho, Hd. injection Ho as <-. rewrite Hc in Hc'. injection Hc' as <-.
  rewrite Hdb in Hdb'. injection Hdb' as <-.
  rewrite txn_DBRef_open_id in Hd by done. injection Hd as <-.
  assert (Hh : holds_entry p refID kb vb (<[p := with_db c (Some env')]> h)).
  { apply txn_Put_shape in Hp as [-> _].
    eexists _, _. rewrite lookup_insert_eq. split; [done|].
    split; [done|]. split; [done|]. split; [done|]. simpl. split; [done|].
    rewrite lookup_insert_eq. simpl. by rewrite lookup_insert_eq. }
  apply (run_ops_holds _ _ _ _ _ ops) in Hh; [|by apply Hops].
  destruct Hh as (cn & envn & Hcn & _ & Hdbn & Htn & Hinn & Hln).
  unfold Get. simpl. rewrite Hcn, Hdbn, Htn. unfold View, get_txn. simpl.
  rewrite txn_DBRef_open_id by done.
  rewrite Hk', Hk. unfold txn_Get. rewrite Hln. unfold decode.
  unfold encode in Hv. destruct (gob_Encode sv val) eqn:He; [done|].
  injection Hv as <-. by rewrite (Hrt _ eq_refl).
Qed.

End RoundTrip.

(** ** C10: [Close] *)

Lemma New_running dir opts c : New dir opts = inr c -> db_terminated c = false.
Proof. unfold New. destruct (apply_options _ _); by intros [= <-]. Qed.

(** The first [Init] on a handle made by [New] runs the once body: it
    panics when the directory creation or the engine open fails, leaving
    the once done and no connection, and otherwise returns with a running
    connection. *)
Lemma initRef_first os ref refID dir opts c p h :
  New dir opts = inr c -> h !! p = Some c ->
  (∃ msg tr, initRef os ref refID p h = (Panic (<[p := with_once_done c]> h) msg, tr)) ∨
  (∃ h1 res tr c1 env, initRef os ref refID p h = (Ret h1 res, tr) ∧
     h1 !! p = Some c1 ∧ initOnce c1 = true ∧ db c1 = Some env ∧ db_terminated c1 = false).
Proof.
  intros HN Hc. destruct (New_resolved _ _ _ HN) as (Hdb & Hi & _).
  unfold initRef. rewrite Hc. unfold once_Do. rewrite Hi.
  destruct (once_body os c) as [[c1 tr1] [m|]] eqn:Hb.
  - left. apply once_body_panic in Hb as ->. eauto.
  - right. destruct (once_body_ok _ _ _ _ Hb) as (r & n & b & l & data & _ & _ & -> & _).
    simpl. destruct (Update (open_ref_txn refID) (mkEnv n [] data)) as [env' err].
    destruct err; do 5 eexists; (split; [reflexivity|]);
      rewrite insert_insert_eq, lookup_insert_eq; done.
Qed.

Lemma inits_after_failed calls p h c :
  h !! p = Some c -> initOnce c = true -> db c = None -> inits_heap calls p h = h.
Proof.
  intros Hc Hi Hdb. induction calls as [|[[os ref] refID] calls IH]; [done|]. simpl.
  by rewrite (initRef_after_failed_open os ref refID p h c).
Qed.

Lemma inits_live calls p h c env :
  h !! p = Some c -> initOnce c = true -> db c = Some env -> db_terminated c = false ->
  ∃ c' env', inits_heap calls p h !! p = Some c' ∧ db c' = Some env' ∧
             db_terminated c' = false.
Proof.
  revert h c env. induction calls as [|[[os ref] refID] calls IH]; intros h c env Hc Hi Hdb Ht.
  - eauto.
  - simpl. destruct (initRef_live os ref refID p h c env Hc Hi Hdb Ht) as (env' & -> & _).
    apply (IH _ (with_db c (Some env')) env'); [apply lookup_insert_eq | done | done | done].
Qed.

(** C10 (as the code has it).  Take a handle made by [New] and any
    sequence of [Init] calls on it.  The first call runs the engine open:
    it panics when the open (or the directory creation) fails, and returns
    when the open succeeded, with or without an error of its own.  [Close]
    then panics with a nil dereference exactly when there was no call or
    the first one panicked, that is when the open never ran or failed.
    After a successful open it does not panic, even when every [Init]
    returned an error: it shuts the golmdb client down. *)
Theorem Close_panics_iff_unopened (dir : string) (opts : list Option) (c : Client)
    (p : loc) (h : heap) (calls : list (OS * DBRef * string)) :
  New dir opts = inr c -> h !! p = Some c ->
  (Close p (inits_heap calls p h) = Panic (inits_heap calls p h) nil_deref <->
     match run_inits calls p h with
     | (Ret _ _, _) :: _ => False
     | _ => True
     end) ∧
  (∀ h1 res tr rest, run_inits calls p h = (Ret h1 res, tr) :: rest ->
     ∃ c', inits_heap calls p h !! p = Some c' ∧ db c' ≠ None ∧
       Close p (inits_heap calls p h) =
         Ret (<[p := with_terminated c']> (inits_heap calls p h)) tt).
Proof.
  intros HN Hc. destruct (New_resolved _ _ _ HN) as (Hdb & _ & _).
  destruct calls as [|[[os ref] refID] rest]; simpl.
  - unfold Close. rewrite Hc, Hdb. split; [done|]. by intros.
  - destruct (initRef_first os ref refID dir opts c p h HN Hc)
      as [(msg & tr & HI) | (h1 & res & tr & c1 & env & HI & Hc1 & Hi1 & Hdb1 & Ht1)];
      rewrite HI; simpl.
    + rewrite (inits_after_failed rest p _ (with_once_done c));
        [| apply lookup_insert_eq | done | done].
      unfold Close. rewrite lookup_insert_eq. simpl. rewrite Hdb. split; [done|]. by intros.
    + destruct (inits_live rest p h1 c1 env Hc1 Hi1 Hdb1 Ht1) as (c' & env' & Hc' & Hdb' & Ht').
      unfold Close. rewrite Hc', Hdb', Ht'. split; [done|].
      intros ? ? ? ? _. exists c'. by rewrite Hdb'.
Qed.

Section UninitRef.
Context {K V : Type} `{Gob K} `{Gob V} `{GoZero V}.

(** C5 (as the code has it). [Put] and [Get] have no guard against an
    uninitialized reference: on a reference whose owner handle is nil (the
    zero [DBRef], or one whose [Init] never succeeded) both dereference the
    nil owner and panic, leaving the heap unchanged, whatever gob draws;
    no error is returned. *)
Theorem uninitialized_ref_panics (ref : DBRef) (key : K) (val : V) (sk sv : gob_seed)
    (h : heap) :
  ownerDB ref = None ->
  Put ref key val sk sv h = Panic h nil_deref ∧ Get (V := V) ref key sk h = Panic h nil_deref.
Proof. intros Ho. unfold Put, Get. by rewrite Ho. Qed.

End UninitRef.

Lemma run_schedule_rtc os s sched s' :
  run_schedule os s sched = Some s' -> rtc (sys_step os) s s'.
Proof.
  revert s. induction sched as [|i sched IH]; intros s; simpl.
  - intros [= ->]. apply rtc_refl.
  - destruct (sys_step_at os s i) as [s1|] eqn:Hs; [|done].
    intros Hr. eapply rtc_l; [exists i; exact Hs | by apply IH].
Qed.

Lemma open_db_attempts os c c' tr pm :
  open_db os c = (c', tr, pm) -> open_attempts tr = 0.
Proof. unfold open_db. repeat case_match; intros; simplify_eq; done. Qed.

Lemma once_body_attempts os c c' tr pm :
  once_body os c = (c', tr, pm) -> open_attempts tr = 1.
Proof.
  unfold once_body, open_attempts.
  destruct (os_Stat os (path c));
    [| destruct (os_MkdirAll os (path c)) as [err|]; [by intros [= _ <- _]|] |];
    destruct (open_db os c) as [[c1 tr1] pm1] eqn:Ho; intros [= _ <- _];
    apply open_db_attempts in Ho; unfold open_attempts in Ho; simpl; by rewrite Ho.
Qed.

Lemma observed_past t b : observed t = Some b -> past_once t = true.
Proof. by destruct t. Qed.

Lemma lookup_insert_cases {A} (l : list A) i j x y :
  <[i := x]> l !! j = Some y -> (i = j ∧ x = y) ∨ (i ≠ j ∧ l !! j = Some y).
Proof.
  intros Hl. destruct (decide (i = j)) as [->|Hne].
  - left. split; [done|].
    assert (j < List.length l).
    { rewrite <- (length_insert l j x). by eapply lookup_lt_Some. }
    rewrite list_lookup_insert_eq in Hl by done. by simplify_eq.
  - right. split; [done|]. by rewrite list_lookup_insert_ne in Hl.
Qed.

Lemma open_attempts_app tr1 tr2 :
  open_attempts (tr1 ++ tr2) = open_attempts tr1 + open_attempts tr2.
Proof. unfold open_attempts. by rewrite List.filter_app, length_app. Qed.

(** The threads other than the one that stepped keep their state. *)
Ltac other_threads :=
  match goal with
  | Hj : <[_ := _]> _ !! _ = Some _ |- _ =>
      apply lookup_insert_cases in Hj as [[<- [= <- <-]] | [_ Hj]]
  end.

Ltac rewrite_done :=
  try match goal with H : initOnce _ = _ |- _ => rewrite H in * end.

Ltac thread_goal :=
  first [ let j := fresh "j" in let b := fresh "b" in
          let Hj := fresh "Hj" in let Hob := fresh "Hob" in
          intros j ? ? b Hj Hob; other_threads
        | let j := fresh "j" in let Hj := fresh "Hj" in let Hp := fresh "Hp" in
          intros j ? ? Hj Hp; other_threads ].

Lemma sys_inv_step os s s' : sys_inv s -> sys_step os s s' -> sys_inv s'.
Proof.
  destruct s as [w ts]. intros [I1 I2 I3 I4] [i Hs].
  unfold sys_step_at in Hs; simpl in *.
  destruct (ts !! i) as [[rid t]|] eqn:Hi; [|done].
  destruct (tstep os rid w t) as [[w' t']|] eqn:Ht; [|done].
  injection Hs as <-.
  destruct w as [c lk tr]; simpl in *.
  destruct t; simpl in Ht.
  - (* TStart: the fast path *)
    destruct (initOnce c) eqn:Hdone; injection Ht as <- <-;
      split; simpl; rewrite_done; try done; thread_goal; eauto.
  - (* TSlow: taking the mutex *)
    destruct lk; [done|]. injection Ht as <- <-.
    split; simpl; rewrite_done; try done; thread_goal; eauto.
  - (* TLocked *)
    destruct (initOnce c) eqn:Hdone.
    + injection Ht as <- <-.
      split; simpl; rewrite_done; try done; thread_goal; eauto.
    + destruct (once_body os c) as [[c' tr'] pm] eqn:Hb.
      assert (Hatt : open_attempts (tr ++ tr') = 1).
      { rewrite open_attempts_app, I1, (once_body_attempts _ _ _ _ _ Hb). done. }
      destruct pm as [m|]; injection Ht as <- <-.
      * apply once_body_panic in Hb as ->.
        split; simpl; try done.
        intros j rid' t'' b Hj Hob. other_threads.
        -- injection Hob as <-. unfold opened_b. simpl. by rewrite I2.
        -- specialize (I3 _ _ _ Hj (observed_past _ _ Hob)). congruence.
      * split; simpl; try done.
        intros j rid' t'' b Hj Hob. other_threads; [done|].
        specialize (I3 _ _ _ Hj (observed_past _ _ Hob)). congruence.
  - (* TAfterOnce: reading db.db, then the transaction *)
    assert (Hdone : initOnce c = true) by (eapply I3; [exact Hi | done]).
    destruct (db c) as [env|] eqn:Hdb.
    + destruct (db_terminated c); [done|].
      destruct (Update (open_ref_txn rid) env) as [env' err].
      injection Ht as <- <-.
      assert (Hob_c : opened_b c = true) by (unfold opened_b; by rewrite Hdb).
      split; simpl; try (by destruct c).
      * congruence.
      * intros j rid' t'' b Hj Hob. other_threads.
        -- injection Hob as <-. done.
        -- rewrite (I4 _ _ _ _ Hj Hob), Hob_c. done.
    + injection Ht as <- <-.
      split; simpl; try done; try (intros j rid' t'' Hj Hp; other_threads; by eauto).
      intros j rid' t'' b Hj Hob. other_threads.
      * injection Hob as <-. unfold opened_b. by rewrite Hdb.
      * eauto.
  - done.
  - done.
Qed.

Lemma sys_inv_init dir opts c rids :
  New dir opts = inr c -> sys_inv (init_sys c rids).
Proof.
  intros HN. destruct (New_resolved _ _ _ HN) as (Hdb & Hi & _).
  split; simpl.
  - by rewrite Hi.
  - done.
  - intros i rid t Hl. apply list_lookup_fmap_Some in Hl as (? & [= -> ->] & _). done.
  - intros i rid t b Hl. apply list_lookup_fmap_Some in Hl as (? & [= -> ->] & _). done.
Qed.

Lemma sys_inv_steps os s s' : sys_inv s -> rtc (sys_step os) s s' -> sys_inv s'.
Proof. intros Hinv Hr. induction Hr; eauto using sys_inv_step. Qed.

(** C9. Take [N] goroutines calling [Init] on references of one handle
    made by [New], in any interleaving.  In every reachable state the once
    body (the directory creation and the engine open) has run at most once.
    A goroutine that has returned from [initOnce.Do] finds it done and the
    body run exactly once: the others waited for the running attempt.  All
    goroutines past [Do] observe the same outcome of that single attempt:
    either all see an open connection, or all see a failure (the one that
    ran the body panicked, the others returned "failed to initialize
    database"). *)
Theorem concurrent_init_single_open (os : OS) (dir : string) (opts : list Option)
    (c : Client) (rids : list string) (s : sys) :
  New dir opts = inr c ->
  rtc (sys_step os) (init_sys c rids) s ->
  open_attempts (w_trace s.1) ≤ 1 ∧
  (∀ i rid t, s.2 !! i = Some (rid, t) -> past_once t = true ->
     initOnce (w_client s.1) = true ∧ open_attempts (w_trace s.1) = 1) ∧
  (∀ i j ri rj ti tj bi bj, s.2 !! i = Some (ri, ti) -> s.2 !! j = Some (rj, tj) ->
     observed ti = Some bi -> observed tj = Some bj -> bi = bj).
Proof.
  intros HN Hr.
  assert (Hinv : sys_inv s).
  { eapply sys_inv_steps; [by eapply sys_inv_init | exact Hr]. }
  destruct Hinv as [I1 I2 I3 I4].
  split; [rewrite I1; destruct (initOnce (w_client s.1)); lia|].
  split.
  - intros i rid t Hl Hp. specialize (I3 _ _ _ Hl Hp). rewrite I1, I3. done.
  - intros i j ri rj ti tj bi bj Hli Hlj Hoi Hoj.
    rewrite (I4 _ _ _ _ Hli Hoi), (I4 _ _ _ _ Hlj Hoj). done.
Qed.

(* ================================================================== *)
(** * Further properties of the code *)

Section PutCompose.
Context {K V : Type} `{Gob K} `{Gob V} `{GoZero V}.

(** A later successful [Put] of a key replaces an earlier one completely,
    when both encode the key to the same bytes (as every key without maps
    does, whatever gob draws): [Put(k, v1)] then [Put(k, v2)] leaves the
    same state as [Put(k, v2)] alone. *)
Theorem Put_Put_same_key (ref : DBRef) (key : K) (v1 v2 : V)
    (sk1 sv1 sk2 sv2 : gob_seed) (h h1 h2 : heap) :
  encode sk2 key = encode sk1 key ->
  Put ref key v1 sk1 sv1 h = Ret h1 None ->
  Put ref key v2 sk2 sv2 h1 = Ret h2 None ->
  Put ref key v2 sk2 sv2 h = Ret h2 None.
Proof.
  intros Hkey HP1 HP2.
  destruct (Put_success_inv _ _ _ _ _ _ _ HP1)
    as (p & c & env & txn1 & kb & vb1 & env1 & Ho & Hc & Hdb & Ht & Hd & Hk & Hv1 & Hp1 & ->).
  destruct (Put_success_inv _ _ _ _ _ _ _ HP2)
    as (p' & c' & env' & txn1' & kb' & vb2 & env2 & Ho' & Hc' & Hdb' & Ht' & Hd' & Hk' & Hv2
        & Hp2 & ->).
  rewrite Ho in Ho'. injection Ho' as <-. rewrite lookup_insert_eq in Hc'.
  injection Hc' as <-. rewrite with_db_db in Hdb'. injection Hdb' as <-.
  rewrite Hkey, Hk in Hk'. injection Hk' as <-.
  assert (Hin : id ref ∈ env_dbis env1).
  { apply txn_Put_shape in Hp1 as [-> _]. simpl. eapply txn_DBRef_opened; eauto. }
  rewrite txn_DBRef_open_id in Hd' by done. injection Hd' as <-.
  apply txn_Put_shape in Hp1 as [-> _].
  apply txn_Put_shape in Hp2 as [-> Hok2]. simpl in *.
  rewrite insert_insert_eq, with_db_with_db.
  rewrite lookup_insert_eq. simpl. rewrite !insert_insert_eq.
  eapply Put_success_eq; [done | done | done | done | done | by rewrite Hkey | done |].
  unfold txn_Put. rewrite decide_False by exact Hok2. done.
Qed.

(** [Put]s of keys whose encodings differ commute: when [Put(k1, v1)] then
    [Put(k2, v2)] both succeed, doing them in the other order, with the
    same draws of gob, succeeds too and ends in the same state. *)
Theorem Put_Put_commute (ref : DBRef) (k1 k2 : K) (v1 v2 : V)
    (sk1 sv1 sk2 sv2 : gob_seed) (h h1 h2 : heap) :
  encode sk1 k1 <> encode sk2 k2 ->
  Put ref k1 v1 sk1 sv1 h = Ret h1 None ->
  Put ref k2 v2 sk2 sv2 h1 = Ret h2 None ->
  ∃ h1', Put ref k2 v2 sk2 sv2 h = Ret h1' None ∧ Put ref k1 v1 sk1 sv1 h1' = Ret h2 None.
Proof.
  intros Hne HP1 HP2.
  destruct (Put_success_inv _ _ _ _ _ _ _ HP1)
    as (p & c & env & txn1 & kb1 & vb1 & env1 & Ho & Hc & Hdb & Ht & Hd & Hk1 & Hv1 & Hp1 & ->).
  destruct (Put_success_inv _ _ _ _ _ _ _ HP2)
    as (p' & c' & env' & txn1' & kb2 & vb2 & env2 & Ho' & Hc' & Hdb' & Ht' & Hd' & Hk2 & Hv2
        & Hp2 & ->).
  rewrite Ho in Ho'. injection Ho' as <-. rewrite lookup_insert_eq in Hc'.
  injection Hc' as <-. rewrite with_db_db in Hdb'. injection Hdb' as <-.
  assert (Hin : id ref ∈ env_dbis env1).
  { apply txn_Put_shape in Hp1 as [-> _]. simpl. eapply txn_DBRef_opened; eauto. }
  rewrite txn_DBRef_open_id in Hd' by done. injection Hd' as <-.
  assert (Hkb : kb1 ≠ kb2) by (intros ->; apply Hne; by rewrite Hk1, Hk2).
  apply txn_Put_shape in Hp1 as [-> Hok1].
  apply txn_Put_shape in Hp2 as [-> Hok2]. simpl in *.
  assert (Hin1 : id ref ∈ env_dbis txn1) by (eapply txn_DBRef_opened; eauto).
  set (e2 := mkEnv (env_maxdbs txn1) (env_dbis txn1)
               (<[id ref := <[kb2 := vb2]> (default ∅ (env_data txn1 !! id ref))]>
                  (env_data txn1))).
  exists (<[p := with_db c (Some e2)]> h). split.
  - eapply Put_success_eq; eauto. unfold txn_Put. rewrite decide_False by exact Hok2. done.
  - set (e12 := mkEnv (env_maxdbs txn1) (env_dbis txn1)
               (<[id ref := <[kb1 := vb1]> (<[kb2 := vb2]> (default ∅ (env_data txn1 !! id ref)))]>
                  (env_data txn1))).
    rewrite (Put_success_eq ref k1 v1 sk1 sv1 _ p (with_db c (Some e2)) e2 e2 kb1 vb1 e12);
      try done.
    + rewrite !insert_insert_eq, !with_db_with_db. subst e12. simpl.
      rewrite !lookup_insert_eq. simpl.
      by rewrite (insert_insert_ne _ kb1 kb2).
    + by rewrite lookup_insert_eq.
    + by apply txn_DBRef_open_id.
    + unfold txn_Put. rewrite decide_False by exact Hok1. subst e2 e12. simpl.
      rewrite lookup_insert_eq. simpl. by rewrite insert_insert_eq.
Qed.

End PutCompose.

Section Isolation.
Context {K1 V1 K2 V2 : Type} `{Gob K1} `{Gob V1} `{Gob K2} `{Gob V2} `{GoZero V2}.

Lemma get_txn_congr (ref : DBRef) (key : K2) (sk : gob_seed) (e1 e2 : lmdb_env) :
  id ref ∈ env_dbis e1 -> id ref ∈ env_dbis e2 ->
  (∀ kb, encode sk key = inr kb ->
     env_data e1 !! id ref ≫= lookup kb = env_data e2 !! id ref ≫= lookup kb) ->
  get_txn (V := V2) ref key sk e1 = get_txn ref key sk e2.
Proof.
  intros Hin1 Hin2 Hd. unfold get_txn.
  rewrite !txn_DBRef_open_id by done.
  destruct (encode sk key) as [|kb]; [done|]. unfold txn_Get. by rewrite Hd.
Qed.

Lemma Get_congr (ref : DBRef) (key : K2) (sk : gob_seed) (h1 h2 : heap) q c1 c2 env1 env2 r :
  ownerDB ref = Some q -> h1 !! q = Some c1 -> db c1 = Some env1 ->
  h2 !! q = Some c2 -> db c2 = Some env2 -> db_terminated c2 = db_terminated c1 ->
  get_txn (V := V2) ref key sk env2 = get_txn ref key sk env1 ->
  Get ref key sk h1 = Ret h1 r -> Get ref key sk h2 = Ret h2 r.
Proof.
  intros Ho Hc1 Hdb1 Hc2 Hdb2 Ht Hg. unfold Get. rewrite Ho, Hc1, Hdb1, Hc2, Hdb2, Ht.
  destruct (db_terminated c1); [done|].
  unfold View. rewrite Hg. destruct (get_txn ref key sk env1); intros; by simplify_eq.
Qed.

(** A successful [Put] changes no other entry: a [Get] through an
    initialized reference (its sub-database is open on its handle), of any
    key and value types, returns after the [Put] what it returned before,
    for the same draws of gob, whenever it reads another handle, another
    sub-database, or a key whose encoding differs from the key written. *)
Theorem Put_preserves_other_Get (ref : DBRef) (key : K1) (val : V1) (sk sv : gob_seed)
    (ref' : DBRef) (key' : K2) (sg : gob_seed) (h h' : heap) (r : V2 * option goerr) :
  Put ref key val sk sv h = Ret h' None ->
  (∀ q c env, ownerDB ref' = Some q -> h !! q = Some c -> db c = Some env ->
     id ref' ∈ env_dbis env) ->
  ownerDB ref' ≠ ownerDB ref ∨ id ref' ≠ id ref ∨ encode sg key' ≠ encode sk key ->
  Get ref' key' sg h = Ret h r ->
  Get ref' key' sg h' = Ret h' r.
Proof.
  intros HP Hinit Hdiff HG.
  destruct (Put_success_inv _ _ _ _ _ _ _ HP)
    as (p & c & env & txn1 & kb & vb & env' & Ho & Hc & Hdb & Ht & Hd & Hk & Hv & Hp & ->).
  destruct (ownerDB ref') as [q|] eqn:Ho'; [|unfold Get in HG; by rewrite Ho' in HG].
  destruct (h !! q) as [cq|] eqn:Hcq; [|unfold Get in HG; by rewrite Ho', Hcq in HG].
  destruct (db cq) as [envq|] eqn:Hdbq;
    [|unfold Get in HG; by rewrite Ho', Hcq, Hdbq in HG].
  pose proof (Hinit q cq envq eq_refl Hcq Hdbq) as Hin.
  destruct (decide (q = p)) as [->|Hqp].
  - rewrite Hc in Hcq. injection Hcq as <-. rewrite Hdb in Hdbq. injection Hdbq as <-.
    destruct (txn_DBRef_no_create_shape _ _ _ Hd) as (_ & Hdata & Hdbis).
    apply txn_Put_shape in Hp as [-> _].
    eapply (Get_congr _ _ _ h _ p c _ env);
      [done | done | done | apply lookup_insert_eq | apply with_db_db | by destruct c
      | | exact HG].
    apply get_txn_congr; simpl.
    + destruct Hdbis as [-> | ->]; [done|]. by right.
    + done.
    + intros kb' Hk'. rewrite Hdata.
      destruct (decide (id ref' = id ref)) as [Hid|Hid].
      * rewrite Hid, lookup_insert_eq. simpl.
        assert (kb' ≠ kb).
        { intros ->. rewrite Ho in Hdiff.
          destruct Hdiff as [Hn | [Hn | Hn]]; apply Hn; congruence. }
        rewrite lookup_insert_ne by done.
        by destruct (env_data env !! id ref).
      * by rewrite lookup_insert_ne by done.
  - eapply (Get_congr _ _ _ h _ q cq); eauto.
    by rewrite lookup_insert_ne by done.
Qed.

End Isolation.

Section ErrorPaths.
Context {K V : Type} `{Gob K} `{Gob V} `{GoZero V}.

(** On an initialized reference of a running handle, a [Put] that cannot
    encode its key, or its value, or whose key encoding is empty or longer
    than the engine's 511 byte limit, returns
    [errors.Join(ErrPutFailed, cause)] and changes nothing.  The message of
    an encoding failure carries two prefixes, the one of [Put] and the one
    [encode] already added. *)
Theorem Put_error_messages (ref : DBRef) (key : K) (val : V) (sk sv : gob_seed) (h : heap)
    (p : loc) (c : Client) (env : lmdb_env) :
  ownerDB ref = Some p -> h !! p = Some c -> db c = Some env -> db_terminated c = false ->
  id ref ∈ env_dbis env ->
  (∀ msg, gob_Encode sk key = inl msg ->
     Put ref key val sk sv h = Ret h (Some (EJoin [ErrPutFailed;
       ENew ("failed to encode key: " ++ "failed to encode value: " ++ msg)%string]))) ∧
  (∀ kb msg, gob_Encode sk key = inr kb -> gob_Encode sv val = inl msg ->
     Put ref key val sk sv h = Ret h (Some (EJoin [ErrPutFailed;
       ENew ("failed to encode value: " ++ "failed to encode value: " ++ msg)%string]))) ∧
  (∀ kb vb, gob_Encode sk key = inr kb -> gob_Encode sv val = inr vb ->
     List.length kb = 0 ∨ MDB_MAXKEYSIZE < List.length kb ->
     Put ref key val sk sv h = Ret h (Some (EJoin [ErrPutFailed;
       ENew ("failed to put key: " ++ lmdb_err_msg MDB_BAD_VALSIZE)%string]))).
Proof.
  intros Ho Hc Hdb Ht Hin.
  assert (Hid : <[p := with_db c (Some env)]> h = h)
    by (rewrite with_db_id by done; by apply insert_id).
  unfold Put, Update, put_txn, encode. rewrite Ho, Hc, Hdb, Ht, txn_DBRef_open_id by done.
  split; [|split].
  - intros msg ->. by rewrite Hid.
  - intros kb msg -> ->. by rewrite Hid.
  - intros kb vb -> -> Hlen. unfold txn_Put. rewrite decide_True by tauto. by rewrite Hid.
Qed.

(** On an initialized reference of a running handle, a [Get] that finds
    stored bytes it cannot decode into [V] (for instance bytes a reference
    of another value type wrote) returns the zero value and
    [errors.Join(ErrGetFailed, cause)], whose message again carries the
    decoding prefix twice. *)
Theorem Get_decode_error (ref : DBRef) (key : K) (sk : gob_seed) (h : heap) (p : loc)
    (c : Client) (env : lmdb_env) (kb vb : bytes) (msg : string) :
  ownerDB ref = Some p -> h !! p = Some c -> db c = Some env -> db_terminated c = false ->
  id ref ∈ env_dbis env ->
  encode sk key = inr kb -> env_data env !! id ref ≫= lookup kb = Some vb ->
  gob_Decode (T := V) vb = inl msg ->
  Get (V := V) ref key sk h = Ret h (go_zero, Some (EJoin [ErrGetFailed;
    ENew ("failed to decode value: " ++ "failed to decode value: " ++ msg)%string])).
Proof.
  intros Ho Hc Hdb Ht Hin Hk Hl Hdec.
  unfold Get, View, get_txn, txn_Get, decode.
  rewrite Ho, Hc, Hdb, Ht, txn_DBRef_open_id, Hk, Hl, Hdec by done. done.
Qed.

End ErrorPaths.

(** ** [initRef]: the first open, errors, capacity *)

Lemma txn_DBRef_inv name create e e' :
  txn_DBRef name create e = inr e' ->
  env_maxdbs e' = env_maxdbs e ∧
  ((env_dbis e' = env_dbis e ∧ name ∈ env_dbis e) ∨
   (env_dbis e' = (name :: env_dbis e) ∧ (name ∉ env_dbis e) ∧
    List.length (env_dbis e) < env_maxdbs e)).
Proof.
  unfold txn_DBRef. intros Hd.
  repeat (case_decide || case_match); simplify_eq/=; try done;
    (split; [done|]); first [by left | right; repeat split; try done; lia].
Qed.

Lemma open_ref_step_ok n env refID env' err :
  env_maxdbs env = n ∧ NoDup (env_dbis env) ∧ List.length (env_dbis env) ≤ n ->
  Update (open_ref_txn refID) env = (env', err) ->
  (env_maxdbs env' = n ∧ NoDup (env_dbis env') ∧ List.length (env_dbis env') ≤ n) ∧
  env_dbis env ⊆ env_dbis env' ∧ (err = None -> refID ∈ env_dbis env').
Proof.
  intros (Hm & Hnd & Hl). unfold Update, open_ref_txn.
  destruct (txn_DBRef refID true env) as [|e1] eqn:Hd; intros [= <- <-]; [done|].
  destruct (txn_DBRef_inv _ _ _ _ Hd) as [Hm' [[-> Hin] | (-> & Hnin & Hlt)]].
  - repeat split; try done; lia.
  - simpl. repeat split; try lia.
    + by constructor.
    + intros x Hx. by right.
    + intros _. by left.
Qed.

Lemma once_Do_ok n os c c1 tr pm :
  client_ok n c -> once_Do os c = (c1, tr, pm) ->
  client_ok n c1 ∧ initOnce c1 = true ∧ client_dbis c ⊆ client_dbis c1.
Proof.
  intros Hok. pose proof Hok as (Hn & Hnone & Henv). unfold once_Do.
  destruct (initOnce c) eqn:Hi.
  - intros [= <- _ _]. done.
  - destruct (once_body os c) as [[c' tr'] pm'] eqn:Hb. intros [= <- _ _].
    assert (Hsub : client_dbis c ⊆ client_dbis (with_once_done c')).
    { unfold client_dbis. rewrite (Hnone eq_refl). intros x Hx. by apply elem_of_nil in Hx. }
    split; [|split; [done|exact Hsub]].
    destruct pm' as [m|].
    + apply once_body_panic in Hb as ->.
      split; [done|]. split; [done|]. simpl. by rewrite (Hnone eq_refl).
    + destruct (once_body_ok _ _ _ _ Hb) as (r & n' & b & l & data & Ho & _ & -> & _).
      rewrite Ho in Hn. injection Hn as <-.
      split; [simpl; by rewrite Ho|]. split; [done|].
      intros env [= <-]. simpl. repeat split; [constructor|lia].
Qed.

Lemma initRef_handle_ok n os ref refID p h o tr :
  handle_ok n p h -> initRef os ref refID p h = (o, tr) ->
  handle_ok n p (outcome_heap o) ∧ dbis_at p h ⊆ dbis_at p (outcome_heap o) ∧
  (∀ h1 r1, o = Ret h1 (r1, None) -> refID ∈ dbis_at p h1).
Proof.
  intros (c & Hc & Hok) HI. unfold initRef in HI. rewrite Hc in HI.
  destruct (once_Do os c) as [[c1 tr1] pm] eqn:HDo.
  destruct (once_Do_ok _ _ _ _ _ _ Hok HDo) as (Hok1 & Hi1 & Hsub1).
  unfold dbis_at. rewrite Hc.
  destruct pm as [m|].
  - injection HI as <- _. simpl. rewrite lookup_insert_eq.
    split; [by eexists; rewrite lookup_insert_eq|]. split; [done|]. done.
  - destruct (db c1) as [env|] eqn:Hdb.
    + destruct (db_terminated c1).
      { injection HI as <- _. simpl. rewrite lookup_insert_eq.
        split; [by eexists; rewrite lookup_insert_eq|]. split; [done|]. done. }
      destruct (Update (open_ref_txn refID) env) as [env' err] eqn:HU.
      destruct Hok1 as (Hn1 & Hnone1 & Henv1).
      destruct (open_ref_step_ok n env refID env' err (Henv1 env Hdb) HU)
        as (Henv' & Hsub' & Hin').
      assert (Hok2 : client_ok n (with_db c1 (Some env'))).
      { split; [done|]. split; [simpl; by rewrite Hi1|]. by intros e [= <-]. }
      assert (Hsub2 : client_dbis c ⊆ client_dbis (with_db c1 (Some env'))).
      { intros x Hx. apply Hsub1 in Hx. unfold client_dbis in *. rewrite Hdb in Hx.
        simpl. by apply Hsub'. }
      destruct err as [e|]; injection HI as <- _; simpl; rewrite insert_insert_eq, lookup_insert_eq;
        (split; [eexists; split; [apply lookup_insert_eq|done]|]); (split; [done|]).
      * done.
      * intros h1 r1 [= <- _]. rewrite lookup_insert_eq. simpl. by apply Hin'.
    + injection HI as <- _. simpl. rewrite lookup_insert_eq.
      split; [by eexists; rewrite lookup_insert_eq|]. split; [done|]. done.
Qed.

Lemma run_inits_capacity n p calls h ids :
  handle_ok n p h -> NoDup ids ->
  (∀ x, x ∈ ids -> x ∈ dbis_at p h ∨
     ∃ i os ref h1 r1 tr, calls !! i = Some (os, ref, x) ∧
       run_inits calls p h !! i = Some (Ret h1 (r1, None), tr)) ->
  List.length ids ≤ n.
Proof.
  revert h. induction calls as [|[[os ref] refID] calls IH]; intros h Hok Hnd Hids.
  - destruct Hok as (c & Hc & Hn & _ & Henv).
    assert (Hincl : ids ⊆ dbis_at p h).
    { intros x Hx. destruct (Hids x Hx) as [?|(i & ? & ? & ? & ? & ? & Hi & _)]; [done|].
      by rewrite lookup_nil in Hi. }
    unfold dbis_at, client_dbis in Hincl. rewrite Hc in Hincl.
    destruct (db c) as [env|] eqn:Hdb.
    + destruct (Henv env eq_refl) as (_ & _ & Hl).
      etransitivity; [|exact Hl]. by apply submseteq_length, NoDup_submseteq.
    + destruct ids as [|x ids]; [simpl; lia|].
      exfalso. eapply elem_of_nil, Hincl. by left.
  - simpl in Hids.
    destruct (initRef os ref refID p h) as [o tr] eqn:HI.
    destruct (initRef_handle_ok _ _ _ _ _ _ _ _ Hok HI) as (Hok' & Hsub & Hnew).
    apply (IH (outcome_heap o)); [done|done|].
    intros x Hx. destruct (Hids x Hx) as [Hin | (i & os' & ref' & h1 & r1 & tr' & Hcall & Hrun)].
    + left. by apply Hsub.
    + destruct i as [|i]; simpl in Hcall, Hrun.
      * injection Hcall as <- <- ->. injection Hrun as Hrun _.
        left. rewrite Hrun. simpl. by eapply Hnew.
      * right. exists i, os', ref', h1, r1, tr'. simpl in Hrun. by split.
Qed.

Lemma New_client_ok dir opts c n :
  New dir opts = inr c -> numDbs (client_options c) = Some n -> client_ok n c.
Proof.
  intros HN Hn. destruct (New_resolved _ _ _ HN) as (Hdb & _ & _).
  split; [done|]. split; [done|]. by rewrite Hdb.
Qed.

(** A handle holds at most [numDbs] references: along any sequence of
    [Init] calls on a handle made by [New], whatever the file system does,
    the distinct reference names whose [Init] returned nil are at most
    [numDbs] (by default 1). *)
Theorem Init_capacity (dir : string) (opts : list Option) (c : Client) (p : loc)
    (h : heap) (n : nat) (calls : list (OS * DBRef * string)) (ids : list string) :
  New dir opts = inr c -> h !! p = Some c -> numDbs (client_options c) = Some n ->
  NoDup ids ->
  (∀ x, x ∈ ids -> ∃ i os ref h1 r1 tr, calls !! i = Some (os, ref, x) ∧
     run_inits calls p h !! i = Some (Ret h1 (r1, None), tr)) ->
  List.length ids ≤ n.
Proof.
  intros HN Hc Hn Hnd Hids.
  apply (run_inits_capacity n p calls h); [|done|].
  - exists c. split; [done|]. by eapply New_client_ok.
  - intros x Hx. right. by apply Hids.
Qed.

Lemma New_numDbs_default dir opts c :
  New dir opts = inr c -> (∀ n, WithNumDBs n ∉ opts) -> numDbs (client_options c) = Some 1.
Proof.
  unfold New. destruct (apply_options_ok opts (mkOptions None None None None))
    as (o & -> & _ & H2 & _ & _).
  intros [= <-] Hn. specialize (H2 Hn).
  destruct o as [r nd b l]; simpl in *. subst nd. by destruct r, b, l.
Qed.

(** With the default number of sub-databases, a handle holds one reference:
    once an [Init] with a name has succeeded on a handle made by [New]
    without [WithNumDBs], an [Init] with any other name returns
    "failed to open db ref: MDB_DBS_FULL: ...", leaves the reference and
    the heap unchanged and performs no I/O. *)
Theorem default_handle_one_ref (os os' : OS) (ref ref' r1 : DBRef) (a b dir : string)
    (opts : list Option) (c : Client) (p : loc) (h h1 : heap) (tr : list io_event) :
  New dir opts = inr c -> (∀ n, WithNumDBs n ∉ opts) -> h !! p = Some c ->
  initRef os ref a p h = (Ret h1 (r1, None), tr) -> b ≠ a ->
  initRef os' ref' b p h1 =
    (Ret h1 (ref', Some (ENew ("failed to open db ref: " ++ lmdb_err_msg MDB_DBS_FULL)%string)), []).
Proof.
  intros HN Hopt Hc HI Hba.
  assert (Hok : handle_ok 1 p h).
  { exists c. split; [done|]. eapply New_client_ok; [done|]. by eapply New_numDbs_default. }
  destruct (initRef_handle_ok _ _ _ _ _ _ _ _ Hok HI) as (Hok1 & _ & Hnew).
  specialize (Hnew h1 r1 eq_refl). simpl in Hok1.
  destruct (initRef_success _ _ _ _ _ _ _ _ HI) as (_ & c1 & env & Hc1 & Hi1 & Hdb1 & Ht1 & _).
  destruct Hok1 as (c1' & Hc1' & _ & _ & Henv). rewrite Hc1 in Hc1'. injection Hc1' as <-.
  destruct (Henv env Hdb1) as (Hm & _ & Hl).
  unfold dbis_at, client_dbis in Hnew. rewrite Hc1, Hdb1 in Hnew.
  assert (Hdbis : env_dbis env = [a]).
  { destruct (env_dbis env) as [|x [|y l]]; simpl in Hl; try lia.
    - by apply elem_of_nil in Hnew.
    - by apply list_elem_of_singleton in Hnew as ->. }
  unfold initRef. rewrite Hc1. unfold once_Do. rewrite Hi1. simpl. rewrite Hdb1, Ht1.
  unfold Update, open_ref_txn, txn_DBRef.
  rewrite decide_False by (rewrite Hdbis; by intros ?%list_elem_of_singleton).
  rewrite decide_True by (rewrite Hdbis, Hm; simpl; lia).
  rewrite insert_insert_eq, with_db_id, insert_id; done.
Qed.

(** An [Init] that returns an error leaves the reference as it was (it is
    assigned only on success), and the error is either "failed to
    initialize database" or "failed to open db ref: " followed by the
    engine's message.  When the once had already run, it also performs no
    I/O and leaves the heap unchanged. *)
Theorem Init_error_keeps_ref (os : OS) (ref : DBRef) (refID : string) (p : loc)
    (h h1 : heap) (c : Client) (r : DBRef) (e : goerr) (tr : list io_event) :
  h !! p = Some c ->
  initRef os ref refID p h = (Ret h1 (r, Some e), tr) ->
  r = ref ∧
  (e = init_failed_msg ∨ ∃ le, e = ENew ("failed to open db ref: " ++ lmdb_err_msg le)%string) ∧
  (initOnce c = true -> h1 = h ∧ tr = []).
Proof.
  intros Hc HI. unfold initRef in HI. rewrite Hc in HI.
  destruct (once_Do os c) as [[c1 tr1] pm] eqn:HDo.
  destruct pm as [m|]; [done|].
  destruct (db c1) as [env|] eqn:Hdb.
  - destruct (db_terminated c1); [done|].
    destruct (Update (open_ref_txn refID) env) as [env' [err|]] eqn:HU; [|done].
    injection HI as <- <- <- <-.
    apply Update_error in HU as [-> Hf]. unfold open_ref_txn in Hf.
    destruct (txn_DBRef refID true env) as [le|] eqn:Hd; [|done]. injection Hf as <-.
    split; [done|]. split; [right; by exists le|].
    intros Hi. unfold once_Do in HDo. rewrite Hi in HDo. injection HDo as <- <-.
    rewrite insert_insert_eq, with_db_id, insert_id; done.
  - injection HI as <- <- <- <-. split; [done|]. split; [by left|].
    intros Hi. unfold once_Do in HDo. rewrite Hi in HDo. injection HDo as <- <-.
    by rewrite insert_id.
Qed.

Section Outcomes.
Context {K V : Type} `{Gob K} `{Gob V} `{GoZero V}.

(** On an initialized reference of a running handle, [Get] never panics
    and never writes, and it returns [v] with a nil error exactly when gob
    encodes the key, the sub-database holds bytes under that encoding, and
    those bytes decode to [v]. *)
Theorem Get_ok_iff (ref : DBRef) (key : K) (sk : gob_seed) (h : heap) (p : loc) (c : Client)
    (env : lmdb_env) :
  ownerDB ref = Some p -> h !! p = Some c -> db c = Some env -> db_terminated c = false ->
  id ref ∈ env_dbis env ->
  ∃ r, Get (V := V) ref key sk h = Ret h r ∧
    ∀ v, r = (v, None) <->
      ∃ kb vb, gob_Encode sk key = inr kb ∧ env_data env !! id ref ≫= lookup kb = Some vb ∧
               gob_Decode vb = inr v.
Proof.
  intros Ho Hc Hdb Ht Hin.
  unfold Get, View, get_txn, encode, decode.
  rewrite Ho, Hc, Hdb, Ht, txn_DBRef_open_id by done.
  destruct (gob_Encode sk key) as [mk|kb];
    [eexists; split; [reflexivity|]; intros v; split; [done|naive_solver]|].
  unfold txn_Get.
  destruct (env_data env !! id ref ≫= lookup kb) as [vb|] eqn:Hl;
    [|eexists; split; [reflexivity|]; intros v; split; [done|naive_solver]].
  destruct (gob_Decode vb) as [md|v0] eqn:Hd;
    eexists; (split; [reflexivity|]); intros v; split;
    try (intros (kb' & vb' & [= <-] & Hl' & Hd'); rewrite Hl in Hl';
         injection Hl' as <-; congruence).
  - done.
  - intros [= <-]. eauto.
Qed.

End Outcomes.

Lemma apply_options_app (l1 l2 : list Option) (o : options) :
  apply_options (l1 ++ l2) o =
    match apply_options l1 o with inl e => inl e | inr o1 => apply_options l2 o1 end.
Proof.
  revert o. induction l1 as [|opt l1 IH]; intros o; [done|]. simpl.
  destruct (apply_option opt o); [done|]. apply IH.
Qed.

(** When an option is given several times, [New] succeeds and keeps the
    last value, even 0: no [Option] checks its argument. *)
Theorem New_last_option_wins (dir : string) (pre post : list Option) :
  (∀ n, (∀ m, WithNumReaders m ∉ post) -> ∃ c,
     New dir (pre ++ WithNumReaders n :: post) = inr c ∧ numReaders (client_options c) = Some n) ∧
  (∀ n, (∀ m, WithNumDBs m ∉ post) -> ∃ c,
     New dir (pre ++ WithNumDBs n :: post) = inr c ∧ numDbs (client_options c) = Some n) ∧
  (∀ n, (∀ m, WithBatchSize m ∉ post) -> ∃ c,
     New dir (pre ++ WithBatchSize n :: post) = inr c ∧ batchSize (client_options c) = Some n) ∧
  (∀ l, (∀ m, WithLogger m ∉ post) -> ∃ c,
     New dir (pre ++ WithLogger l :: post) = inr c ∧ log (client_options c) = Some l).
Proof.
  destruct (apply_options_ok pre (mkOptions None None None None)) as (o1 & Hpre & _).
  repeat split; intros x Hpost; unfold New; rewrite apply_options_app, Hpre; simpl;
    match goal with |- context [apply_options post ?o2] =>
      destruct (apply_options_ok post o2) as (o3 & -> & H1 & H2 & H3 & H4) end;
    eexists; (split; [reflexivity|]);
    first [ specialize (H1 Hpost) | specialize (H2 Hpost)
          | specialize (H3 Hpost) | specialize (H4 Hpost) ];
    destruct o3 as [[] [] [] []]; simpl in *; congruence.
Qed.

(* ================================================================== *)
(** * Witnesses and counterexamples on concrete handles *)

(** [Put_then_Get] on the README example, across the program [ex_ops]. *)
Lemma Put_then_Get_witness :
  Get (V := string) ex_ref "my_key"%string 0 (run_ops ex_ops ex_h2) =
    Ret (run_ops ex_ops ex_h2) ("Hello, World"%string, None).
Proof.
  apply (Put_then_Get os_fresh zero_DBRef ex_ref "ref_id" 1%positive h_new ex_h1 ex_h2
           [IoStat "testdb"; IoMkdirAll "testdb"; IoNewLMDB "testdb"]
           "my_key"%string "Hello, World"%string 0 0 0 ex_ops).
  - vm_compute. reflexivity.
  - vm_compute. reflexivity.
  - intros kb Hkb. vm_compute in Hkb. injection Hkb as <-.
    constructor; [hnf; right; right; by vm_compute|].
    constructor; [exact I|].
    constructor; [exact I|].
    constructor; [hnf; right; left; by vm_compute|].
    constructor; [hnf; discriminate|].
    constructor.
  - reflexivity.
  - intros vb Hvb. vm_compute in Hvb. injection Hvb as <-. vm_compute. reflexivity.
Defined.

(** C1 as stated fails.  A key of map type is encoded in the order gob
    draws for the map: a [Get] drawing another order than the [Put] looks
    up other bytes and fails, and one drawing the order of an earlier [Put]
    of the same key returns that earlier value.  A struct value with an
    unexported field comes back with that field zeroed. *)
Lemma put_get_not_round_trip :
  Put ex_ref ex_map "old"%string 0 0 ex_h1 = Ret ex_map_h1 None ∧
  (∃ e, Get (V := string) ex_ref ex_map 1 ex_map_h1 = Ret ex_map_h1 (EmptyString, Some e) ∧
        errors_Is e ErrGetFailed = true) ∧
  Put ex_ref ex_map "new"%string 1 0 ex_map_h1 = Ret ex_map_h2 None ∧
  Get (V := string) ex_ref ex_map 0 ex_map_h2 = Ret ex_map_h2 ("old"%string, None) ∧
  Put ex_ref "alice"%string ex_user 0 0 ex_h1 = Ret ex_user_h None ∧
  Get (V := User) ex_ref "alice"%string 0 ex_user_h =
    Ret ex_user_h (mkUser "alice" EmptyString, None) ∧
  mkUser "alice" EmptyString ≠ ex_user.
Proof.
  split; [vm_compute; reflexivity|].
  split; [eexists; split; [vm_compute; reflexivity | vm_compute; reflexivity]|].
  split; [vm_compute; reflexivity|].
  split; [vm_compute; reflexivity|].
  split; [vm_compute; reflexivity|].
  split; [vm_compute; reflexivity|].
  discriminate.
Defined.

Lemma Put_commit_or_abort_witness :
  Put ex_other "my_key"%string "x"%string 0 0 ex_h1 = Ret ex_h1 (Some ex_put_err) ∧
  errors_Is ex_put_err ErrPutFailed = true.
Proof.
  assert (HP : Put ex_other "my_key"%string "x"%string 0 0 ex_h1 = Ret ex_h1 (Some ex_put_err))
    by (vm_compute; reflexivity).
  split; [exact HP|].
  destruct (Put_commit_or_abort ex_other "my_key"%string "x"%string 0 0 ex_h1 ex_h1
              (Some ex_put_err) HP) as [Herr _].
  exact (proj1 (proj2 (Herr ex_put_err eq_refl))).
Defined.

(** The first [Init] on a read-only location panics. *)
Lemma init_open_failure_panics_witness :
  ∃ msg tr, initRef os_readonly zero_DBRef "ref_id" 1%positive h_new =
              (Panic (<[1%positive := with_once_done c_new]> h_new) msg, tr).
Proof.
  destruct (init_open_failure_panics os_readonly zero_DBRef "ref_id" "testdb" []
              c_new 1%positive h_new) as [(msg & tr & Hi & _) _].
  - vm_compute. reflexivity.
  - vm_compute. reflexivity.
  - left. split; [vm_compute; reflexivity | vm_compute; discriminate].
  - exists msg, tr. exact Hi.
Defined.

(** C4 as stated fails: a directory that cannot be created, or an engine
    that does not open, makes the first [Init] panic rather than return. *)
Lemma init_failure_not_returned :
  (∀ h r e tr, Init os_readonly zero_DBRef "ref_id" 1%positive h_new <> (Ret h (r, Some e), tr)) ∧
  (∀ h r e tr, Init os_noengine zero_DBRef "ref_id" 1%positive h_new <> (Ret h (r, Some e), tr)) ∧
  fst (Init os_readonly zero_DBRef "ref_id" 1%positive h_new) =
    Panic (<[1%positive := with_once_done c_new]> h_new)
          "failed to create db directory: mkdir testdb: read-only file system" ∧
  fst (Init os_noengine zero_DBRef "ref_id" 1%positive h_new) =
    Panic (<[1%positive := with_once_done c_new]> h_new)
          "failed to open db: permission denied".
Proof.
  split; [|split; [|split]].
  - intros h r e tr. vm_compute. discriminate.
  - intros h r e tr. vm_compute. discriminate.
  - vm_compute. reflexivity.
  - vm_compute. reflexivity.
Defined.

(** [initRef_idempotent] on the README handle. *)
Lemma initRef_idempotent_witness :
  initRef os_readonly zero_DBRef "ref_id" 1%positive ex_h1 = (Ret ex_h1 (ex_ref, None), []).
Proof.
  apply (initRef_idempotent os_fresh os_readonly zero_DBRef zero_DBRef "ref_id"
           1%positive h_new ex_h1 ex_ref
           [IoStat "testdb"; IoMkdirAll "testdb"; IoNewLMDB "testdb"]).
  vm_compute. reflexivity.
Defined.

(** [open_failure_is_permanent] after a failed first open, for two later
    calls on a file system that would now work. *)
Lemma open_failure_is_permanent_witness :
  run_inits [(os_fresh, zero_DBRef, "a"); (os_fresh, ex_ref, "b")] 1%positive
    (<[1%positive := with_once_done c_new]> h_new) =
  [(Ret (<[1%positive := with_once_done c_new]> h_new) (zero_DBRef, Some init_failed_msg), []);
   (Ret (<[1%positive := with_once_done c_new]> h_new) (ex_ref, Some init_failed_msg), [])].
Proof.
  apply (open_failure_is_permanent os_readonly zero_DBRef "ref_id" "testdb" [] c_new
           1%positive h_new _
           "failed to create db directory: mkdir testdb: read-only file system"
           [IoStat "testdb"; IoMkdirAll "testdb"]
           [(os_fresh, zero_DBRef, "a"); (os_fresh, ex_ref, "b")]);
    vm_compute; reflexivity.
Defined.

(** [Close_panics_iff_unopened] on the README handle: after one
    successful [Init], [Close] shuts the client down. *)
Lemma Close_panics_iff_unopened_witness :
  ∃ c', inits_heap [(os_fresh, zero_DBRef, "ref_id"%string)] 1%positive h_new !! 1%positive =
          Some c' ∧ db c' ≠ None ∧
        Close 1%positive (inits_heap [(os_fresh, zero_DBRef, "ref_id"%string)] 1%positive h_new) =
          Ret (<[1%positive := with_terminated c']>
                 (inits_heap [(os_fresh, zero_DBRef, "ref_id"%string)] 1%positive h_new)) tt.
Proof.
  destruct (Close_panics_iff_unopened "testdb" [] c_new 1%positive h_new
              [(os_fresh, zero_DBRef, "ref_id"%string)]) as [_ H2];
    [vm_compute; reflexivity | vm_compute; reflexivity |].
  apply (H2 ex_h1 (ex_ref, None) [IoStat "testdb"; IoMkdirAll "testdb"; IoNewLMDB "testdb"] []).
  vm_compute. reflexivity.
Defined.

(** C10 as stated fails: with [WithNumDBs 0] the open succeeds but the
    sub-database cannot be registered, so no [Init] ever succeeds, and
    [Close] still does not panic. *)
Lemma close_safe_without_successful_init :
  New "testdb" [WithNumDBs 0] = inr c_nodbs ∧
  ∃ h1 e tr h2,
    Init os_fresh zero_DBRef "ref_id" 1%positive {[1%positive := c_nodbs]} =
      (Ret h1 (zero_DBRef, Some e), tr) ∧
    Close 1%positive h1 = Ret h2 tt.
Proof.
  split; [reflexivity|].
  do 4 eexists. split; [vm_compute; reflexivity|]. vm_compute. reflexivity.
Defined.

(** [uninitialized_ref_panics] on the zero reference. *)
Lemma uninitialized_ref_panics_witness :
  Put zero_DBRef "my_key"%string "v"%string 0 0 h_new = Panic h_new nil_deref ∧
  Get (V := string) zero_DBRef "my_key"%string 0 h_new = Panic h_new nil_deref.
Proof. apply uninitialized_ref_panics. reflexivity. Defined.

(** C5 as stated fails: [Put] and [Get] on the zero reference panic. *)
Lemma uninit_put_get_panic :
  Put zero_DBRef "my_key"%string "v"%string 0 0 h_new = Panic h_new nil_deref ∧
  Get (V := string) zero_DBRef "my_key"%string 0 ex_h2 = Panic ex_h2 nil_deref.
Proof. split; vm_compute; reflexivity. Defined.

(** The race on a read-only location: one panic, one error. *)
Example race_end_threads :
  race_end.2 = [("a", TPanicked "failed to create db directory: mkdir testdb: read-only file system");
                ("b", TDone false (Some init_failed_msg))].
Proof. vm_compute. reflexivity. Qed.

Lemma concurrent_init_single_open_witness :
  open_attempts (w_trace race_end.1) ≤ 1 ∧
  (∀ i rid t, race_end.2 !! i = Some (rid, t) -> past_once t = true ->
     initOnce (w_client race_end.1) = true ∧ open_attempts (w_trace race_end.1) = 1) ∧
  (∀ i j ri rj ti tj bi bj, race_end.2 !! i = Some (ri, ti) -> race_end.2 !! j = Some (rj, tj) ->
     observed ti = Some bi -> observed tj = Some bj -> bi = bj).
Proof.
  apply (concurrent_init_single_open os_readonly "testdb" [] c_new ["a"; "b"] race_end).
  - reflexivity.
  - apply (run_schedule_rtc _ _ race_schedule). vm_compute. reflexivity.
Defined.

(** ** Witnesses of the further properties *)

Lemma Put_Put_same_key_witness :
  Put ex_ref "my_key"%string "x"%string 0 0 ex_h1 = Ret ex_h3 None.
Proof.
  apply (Put_Put_same_key ex_ref "my_key"%string "Hello, World"%string "x"%string
           0 0 0 0 ex_h1 ex_h2 ex_h3); vm_compute; reflexivity.
Defined.

Lemma Put_Put_commute_witness :
  ∃ h1', Put ex_ref "k2"%string "v2"%string 0 0 ex_h1 = Ret h1' None ∧
         Put ex_ref "my_key"%string "Hello, World"%string 0 0 h1' = Ret ex_h4 None.
Proof.
  apply (Put_Put_commute ex_ref "my_key"%string "k2"%string "Hello, World"%string
           "v2"%string 0 0 0 0 ex_h1 ex_h2 ex_h4).
  - vm_compute. discriminate.
  - vm_compute. reflexivity.
  - vm_compute. reflexivity.
Defined.

Lemma Put_preserves_other_Get_witness :
  Get (V := string) ex_ref "k2"%string 0 ex_h2 = Ret ex_h2 ex_get_k2.
Proof.
  apply (Put_preserves_other_Get ex_ref "my_key"%string "Hello, World"%string 0 0
           ex_ref "k2"%string 0 ex_h1 ex_h2 ex_get_k2).
  - vm_compute. reflexivity.
  - intros q c env Hq Hc Hdb. vm_compute in Hq. injection Hq as <-.
    vm_compute in Hc. injection Hc as <-. vm_compute in Hdb. injection Hdb as <-.
    apply list_elem_of_singleton. vm_compute. reflexivity.
  - right. right. vm_compute. discriminate.
  - vm_compute. reflexivity.
Defined.

Lemma Put_error_messages_witness :
  Put ex_ref mk_chan "v"%string 0 0 ex_h1 =
    Ret ex_h1 (Some (EJoin [ErrPutFailed; ENew ("failed to encode key: " ++
      "failed to encode value: " ++ "gob NewTypeObject can't handle type: chan int")%string])) ∧
  Put ex_ref long_key "v"%string 0 0 ex_h1 =
    Ret ex_h1 (Some (EJoin [ErrPutFailed;
      ENew ("failed to put key: " ++ lmdb_err_msg MDB_BAD_VALSIZE)%string])).
Proof.
  destruct (Put_error_messages ex_ref mk_chan "v"%string 0 0 ex_h1 1%positive ex_c1 ex_env1)
    as [Hk _]; [reflexivity | vm_compute; reflexivity | vm_compute; reflexivity
               | vm_compute; reflexivity
               | apply list_elem_of_singleton; vm_compute; reflexivity |].
  destruct (Put_error_messages ex_ref long_key "v"%string 0 0 ex_h1 1%positive ex_c1 ex_env1)
    as (_ & _ & Hs); [reflexivity | vm_compute; reflexivity | vm_compute; reflexivity
                     | vm_compute; reflexivity
                     | apply list_elem_of_singleton; vm_compute; reflexivity |].
  split.
  - by apply Hk.
  - apply (Hs (x0c :: String.list_byte_of_string long_key) (x0c :: String.list_byte_of_string "v"));
      [reflexivity | reflexivity | right; vm_compute; lia].
Defined.

Lemma Get_decode_error_witness :
  Get (V := chan_int) ex_ref "my_key"%string 0 ex_h2 =
    Ret ex_h2 (mk_chan, Some (EJoin [ErrGetFailed; ENew ("failed to decode value: " ++
      "failed to decode value: " ++
      "gob: type mismatch: no fields matched compiling decoder for chan int")%string])).
Proof.
  apply (Get_decode_error ex_ref "my_key"%string 0 ex_h2 1%positive ex_c2 ex_env2
           (x0c :: String.list_byte_of_string "my_key")
           (x0c :: String.list_byte_of_string "Hello, World"));
    try (vm_compute; reflexivity).
  apply list_elem_of_singleton. vm_compute. reflexivity.
Defined.

Lemma Init_capacity_witness :
  List.length ["ref_id"%string] ≤ 1.
Proof.
  apply (Init_capacity "testdb" [] c_new 1%positive h_new 1
           [(os_fresh, zero_DBRef, "ref_id"%string); (os_fresh, zero_DBRef, "other"%string)]).
  - reflexivity.
  - reflexivity.
  - reflexivity.
  - apply NoDup_singleton.
  - intros x Hx. apply list_elem_of_singleton in Hx as ->.
    exists 0, os_fresh, zero_DBRef, ex_h1, ex_ref,
      [IoStat "testdb"; IoMkdirAll "testdb"; IoNewLMDB "testdb"].
    split; vm_compute; reflexivity.
Defined.

Lemma default_handle_one_ref_witness :
  initRef os_fresh ex_ref "other" 1%positive ex_h1 =
    (Ret ex_h1 (ex_ref, Some (ENew ("failed to open db ref: " ++ lmdb_err_msg MDB_DBS_FULL)%string)), []).
Proof.
  apply (default_handle_one_ref os_fresh os_fresh zero_DBRef ex_ref ex_ref "ref_id" "other"
           "testdb" [] c_new 1%positive h_new ex_h1
           [IoStat "testdb"; IoMkdirAll "testdb"; IoNewLMDB "testdb"]).
  - reflexivity.
  - intros n Hn. by apply elem_of_nil in Hn.
  - reflexivity.
  - vm_compute. reflexivity.
  - discriminate.
Defined.

Lemma Init_error_keeps_ref_witness :
  initRef os_fresh ex_ref "b" 1%positive ex_nodbs_h1 = (Ret ex_nodbs_h1 (ex_ref, Some ex_nodbs_err), []) ∧
  (ex_nodbs_err = init_failed_msg ∨
   ∃ le, ex_nodbs_err = ENew ("failed to open db ref: " ++ lmdb_err_msg le)%string).
Proof.
  assert (HI : initRef os_fresh ex_ref "b" 1%positive ex_nodbs_h1 =
                 (Ret ex_nodbs_h1 (ex_ref, Some ex_nodbs_err), []))
    by (vm_compute; reflexivity).
  split; [exact HI|].
  apply (Init_error_keeps_ref os_fresh ex_ref "b" 1%positive ex_nodbs_h1 ex_nodbs_h1
           ex_nodbs_c1 ex_ref ex_nodbs_err []); [vm_compute; reflexivity | exact HI].
Defined.

Lemma Get_ok_iff_witness :
  ∃ r, Get (V := string) ex_ref "my_key"%string 0 ex_h2 = Ret ex_h2 r ∧
    ∀ v, r = (v, None) <->
      ∃ kb vb, gob_Encode 0 "my_key"%string = inr kb ∧
               env_data ex_env2 !! id ex_ref ≫= lookup kb = Some vb ∧
               gob_Decode vb = inr v.
Proof.
  apply (Get_ok_iff ex_ref "my_key"%string 0 ex_h2 1%positive ex_c2 ex_env2).
  - reflexivity.
  - vm_compute. reflexivity.
  - vm_compute. reflexivity.
  - vm_compute. reflexivity.
  - apply list_elem_of_singleton. vm_compute. reflexivity.
Defined.

Lemma New_last_option_wins_witness :
  ∃ c, New "testdb" [WithNumDBs 4; WithNumDBs 0] = inr c ∧ numDbs (client_options c) = Some 0.
Proof.
  apply (proj1 (proj2 (New_last_option_wins "testdb" [WithNumDBs 4] [])) 0).
  intros m Hm. by apply elem_of_nil in Hm.
Defined.
